(** * generate_dists_embedded: embedding dists.dss into a C++ raw string literal

    A shallow embedding of [scripts/tpch/generate_dists_embedded.py].

    - A Python [str] is a sequence of code points: [list N].
    - A Python [bytes] (the contents of a file) is a [list Byte.byte].
    - The builtins the script calls ([in], [str.replace], [str.endswith],
      [str(int)], the codecs) are modelled first, then the two functions
      of the script, [choose_delimiter] and [main].
    - [while True] is a loop with fuel; the theorems give a number of
      iterations that is always enough.
    - Of the file system there is the content of the input file, which
      exists and is readable, and the content written to the output file;
      the creation of the parent directories leaves both as they are.
    - The generated unit is read back the way a C++ compiler reads it, to
      say what its two symbols hold. *)

From Stdlib Require Import List NArith ZArith Arith Lia Bool.
From Stdlib Require Import Strings.Ascii Strings.Byte.
From Stdlib Require Strings.String.
Import String.StringSyntax.
From Stdlib Require Import Decimal DecimalNat.
From Equations Require Import Equations.
Import ListNotations.

Local Open Scope string_scope.
Local Open Scope list_scope.

(** The unfolding equations of the functions defined by well-founded
    recursion are derived without functional extensionality. *)
Unset Equations With Funext.

(** ** Python values *)

Definition str := list N.
Definition bytes := list Byte.byte.

(** A string literal of the script whose characters are all ASCII. *)
Definition lit (s : String.string) : str :=
  map N_of_ascii (String.list_ascii_of_string s).

(** The content of a file read in binary mode, as the values of its bytes. *)
Definition octets (b : bytes) : list N := map Byte.to_N b.

Definition LF : N := 10.      (* "\n" *)
Definition CR : N := 13.      (* "\r" *)
Definition DQUOTE : N := 34.  (* the double quote *)
Definition RPAREN : N := 41.  (* ")" *)
Definition USCORE : N := 95.  (* "_" *)

(** ** Exceptions and the unbounded loop

    A computation returns, raises, or runs out of the fuel its loop was
    given. *)

Inductive exn : Type :=
| UnicodeDecodeError
| UnicodeEncodeError.

Inductive outcome (A : Type) : Type :=
| Return (a : A)
| Raise (e : exn)
| OutOfFuel.

Arguments Return {A} a.
Arguments Raise {A} e.
Arguments OutOfFuel {A}.

Definition bind {A B : Type} (c : outcome A) (k : A -> outcome B) : outcome B :=
  match c with
  | Return a => k a
  | Raise e => Raise e
  | OutOfFuel => OutOfFuel
  end.

Notation "x <- c ;; k" := (bind c (fun x => k))
  (at level 61, c at next level, right associativity).

(** [try: c  except e: handler] *)
Definition try_except {A : Type} (c : outcome A) (e : exn) (handler : outcome A)
  : outcome A :=
  match c with
  | Raise e' =>
      match e, e' with
      | UnicodeDecodeError, UnicodeDecodeError => handler
      | UnicodeEncodeError, UnicodeEncodeError => handler
      | _, _ => Raise e'
      end
  | _ => c
  end.

(** ** Builtins on [str] *)

Module Py.

Fixpoint str_eqb (a b : str) : bool :=
  match a, b with
  | [], [] => true
  | x :: a', y :: b' => (x =? y)%N && str_eqb a' b'
  | _, _ => false
  end.

(** [strip_prefix p s] is [Some r] when [s = p ++ r]. *)
Fixpoint strip_prefix (p s : str) : option str :=
  match p, s with
  | [], _ => Some s
  | x :: p', c :: s' => if (x =? c)%N then strip_prefix p' s' else None
  | _ :: _, [] => None
  end.

(** [s.startswith(p)] *)
Definition startswith (s p : str) : bool :=
  match strip_prefix p s with Some _ => true | None => false end.

(** [s.endswith(p)]: the last [len(p)] characters of [s] are [p]. *)
Definition endswith (s p : str) : bool :=
  (length p <=? length s) && str_eqb (skipn (length s - length p) s) p.

(** [sub in s]: [sub] starts at some offset of [s]. *)
Fixpoint contains (sub s : str) : bool :=
  startswith s sub ||
  match s with
  | [] => false
  | _ :: s' => contains sub s'
  end.

(** Keeps the equation of a [with] scrutinee for the termination proof. *)
Definition inspect {A : Type} (a : A) : {b : A | a = b} := exist _ a eq_refl.

(** [s.replace(old, new)]: the occurrences of [old] are replaced from
    left to right, the search resuming after each replaced occurrence.
    With an empty [old], [new] is put before every character and at the
    end. *)
Equations? replace (old new s : str) : str by wf (length s) lt :=
  replace [] new s := new ++ flat_map (fun c => c :: new) s;
  replace (o :: old') new [] := [];
  replace (o :: old') new (c :: s') with inspect (strip_prefix (o :: old') (c :: s')) := {
    | exist _ (Some rest) _ => new ++ replace (o :: old') new rest
    | exist _ None _ => c :: replace (o :: old') new s' }.
Proof.
  simpl in e. destruct (o =? c)%N; [|discriminate].
  assert (forall p s r, strip_prefix p s = Some r -> length r <= length s) as L.
  { clear. induction p as [|x p IH]; intros s r H; simpl in H.
    - inversion H; subst; lia.
    - destruct s as [|c s]; [discriminate|].
      destruct (x =? c)%N; [|discriminate].
      apply IH in H. simpl. lia. }
  apply L in e. simpl. lia.
Qed.

(** The characters of a decimal numeral. *)
Fixpoint digits (d : Decimal.uint) : str :=
  match d with
  | Nil => []
  | D0 d' => 48%N :: digits d'
  | D1 d' => 49%N :: digits d'
  | D2 d' => 50%N :: digits d'
  | D3 d' => 51%N :: digits d'
  | D4 d' => 52%N :: digits d'
  | D5 d' => 53%N :: digits d'
  | D6 d' => 54%N :: digits d'
  | D7 d' => 55%N :: digits d'
  | D8 d' => 56%N :: digits d'
  | D9 d' => 57%N :: digits d'
  end.

(** [str(n)] for a non-negative [int]. *)
Definition str_of_int (n : nat) : str := digits (Nat.to_uint n).

End Py.

(** ** Codecs *)

Module Codec.

(** [lo <= x <= hi] *)
Definition between (lo x hi : N) : bool := ((lo <=? x) && (x <=? hi))%N.

(** [bytes.decode("utf-8")], strict: the well-formed byte sequences of
    the Unicode standard (no overlong form, no surrogate, nothing above
    U+10FFFF); anything else raises. The payload bits of a byte are what
    is left of it above its marker, and shifting by 6 bits is multiplying
    by 0x40. *)
Fixpoint utf8_decode (bs : bytes) : outcome str :=
  match bs with
  | [] => Return []
  | b0 :: r0 =>
      let x0 := Byte.to_N b0 in
      if (x0 <? 0x80)%N then
        s <- utf8_decode r0 ;; Return (x0 :: s)
      else if between 0xC2 x0 0xDF then
        match r0 with
        | b1 :: r1 =>
            let x1 := Byte.to_N b1 in
            if between 0x80 x1 0xBF then
              s <- utf8_decode r1 ;;
              Return (((x0 - 0xC0) * 0x40 + (x1 - 0x80))%N :: s)
            else Raise UnicodeDecodeError
        | _ => Raise UnicodeDecodeError
        end
      else if between 0xE0 x0 0xEF then
        match r0 with
        | b1 :: b2 :: r2 =>
            let x1 := Byte.to_N b1 in
            let x2 := Byte.to_N b2 in
            let lo := if (x0 =? 0xE0)%N then 0xA0%N else 0x80%N in
            let hi := if (x0 =? 0xED)%N then 0x9F%N else 0xBF%N in
            if between lo x1 hi && between 0x80 x2 0xBF then
              s <- utf8_decode r2 ;;
              Return (((x0 - 0xE0) * 0x1000 + (x1 - 0x80) * 0x40
                       + (x2 - 0x80))%N :: s)
            else Raise UnicodeDecodeError
        | _ => Raise UnicodeDecodeError
        end
      else if between 0xF0 x0 0xF4 then
        match r0 with
        | b1 :: b2 :: b3 :: r3 =>
            let x1 := Byte.to_N b1 in
            let x2 := Byte.to_N b2 in
            let x3 := Byte.to_N b3 in
            let lo := if (x0 =? 0xF0)%N then 0x90%N else 0x80%N in
            let hi := if (x0 =? 0xF4)%N then 0x8F%N else 0xBF%N in
            if between lo x1 hi && between 0x80 x2 0xBF
               && between 0x80 x3 0xBF then
              s <- utf8_decode r3 ;;
              Return (((x0 - 0xF0) * 0x40000 + (x1 - 0x80) * 0x1000
                       + (x2 - 0x80) * 0x40 + (x3 - 0x80))%N :: s)
            else Raise UnicodeDecodeError
        | _ => Raise UnicodeDecodeError
        end
      else Raise UnicodeDecodeError
  end.

(** [bytes.decode("latin-1")]: byte [b] is the character U+00[b]. *)
Definition latin1_decode (bs : bytes) : outcome str :=
  Return (map Byte.to_N bs).

(** A character that UTF-8 encodes: a code point that is no surrogate. *)
Definition scalar (c : N) : Prop := (c < 0xD800 \/ 0xDFFF < c < 0x110000)%N.

Definition byte_of (n : N) : Byte.byte :=
  match Byte.of_N n with Some b => b | None => Byte.x00 end.

(** The UTF-8 form of one character; a surrogate has none. *)
Definition utf8_encode_char (c : N) : outcome bytes :=
  if (c <? 0x80)%N then Return [byte_of c]
  else if (c <? 0x800)%N then
    Return [byte_of (0xC0 + c / 0x40); byte_of (0x80 + c mod 0x40)]
  else if (c <? 0x10000)%N then
    if between 0xD800 c 0xDFFF then Raise UnicodeEncodeError
    else Return [byte_of (0xE0 + c / 0x1000);
                 byte_of (0x80 + (c / 0x40) mod 0x40);
                 byte_of (0x80 + c mod 0x40)]
  else if (c <? 0x110000)%N then
    Return [byte_of (0xF0 + c / 0x40000);
            byte_of (0x80 + (c / 0x1000) mod 0x40);
            byte_of (0x80 + (c / 0x40) mod 0x40);
            byte_of (0x80 + c mod 0x40)]
  else Raise UnicodeEncodeError.

(** The values of the bytes of the UTF-8 form of a character. *)
Definition utf8_octets (c : N) : list N :=
  match utf8_encode_char c with
  | Return b => octets b
  | _ => []
  end.

(** A character of one byte in UTF-8. *)
Definition ascii (c : N) : Prop := (c < 0x80)%N.

(** [str.encode("utf-8")], strict. *)
Fixpoint utf8_encode (s : str) : outcome bytes :=
  match s with
  | [] => Return []
  | c :: s' =>
      b <- utf8_encode_char c ;;
      r <- utf8_encode s' ;;
      Return (b ++ r)
  end.

End Codec.

(** ** Files *)

Module Path.

(** The translation of line ends that a file opened for reading in text
    mode applies ([newline=None]): "\r\n" and "\r" are read as "\n". *)
Definition universal_newlines (s : str) : str :=
  Py.replace [CR] [LF] (Py.replace [CR; LF] [LF] s).

(** [path.read_text(encoding="utf-8")] of an existing file. *)
Definition read_text_utf8 (file : bytes) : outcome str :=
  s <- Codec.utf8_decode file ;; Return (universal_newlines s).

(** [path.read_bytes()] of an existing file. *)
Definition read_bytes (file : bytes) : outcome bytes := Return file.

(** [path.write_text(s, encoding="utf-8", newline="\n")]: the new
    content of the file; "\n" is written as it is. *)
Definition write_text_utf8 (s : str) : outcome bytes := Codec.utf8_encode s.

End Path.

(** ** The script *)

(** [f"){delimiter}"] *)
Definition closing (delimiter : str) : str := RPAREN :: delimiter.

(** [f"{base}_{index}"] *)
Definition suffixed (base : str) (index : nat) : str :=
  base ++ USCORE :: Py.str_of_int index.

(** The [while True] loop of [choose_delimiter], entered with [index]. *)
Fixpoint choose_delimiter_loop (fuel : nat) (data base : str) (index : nat)
  : outcome str :=
  match fuel with
  | O => OutOfFuel
  | S fuel' =>
      let delimiter := suffixed base index in
      if negb (Py.contains (closing delimiter) data) then Return delimiter
      else choose_delimiter_loop fuel' data base (index + 1)
  end.

Definition choose_delimiter (fuel : nat) (data base : str) : outcome str :=
  let delimiter := base in
  if negb (Py.contains (closing delimiter) data) then Return delimiter
  else choose_delimiter_loop fuel data base 1.

(** The characters a chosen delimiter is made of when the base is
    "TPCH_DISTS": capital letters, digits and the underscore. *)
Definition delimiter_char (c : N) : Prop :=
  (48 <= c <= 57 \/ 65 <= c <= 90 \/ c = 95)%N.

(** The parsed command line: [--input], [--output], [--label]. *)
Record args : Type := {
  input : str;
  output : str;
  label : option str
}.

(** [args.label if args.label else str(args.input)]: an empty label is
    falsy. *)
Definition label_of (a : args) : str :=
  match label a with
  | Some l => match l with [] => input a | _ :: _ => l end
  | None => input a
  end.

(** Lines 54-57: the text of the input file. *)
Definition read_input (file : bytes) : outcome str :=
  try_except (Path.read_text_utf8 file) UnicodeDecodeError
             (b <- Path.read_bytes file ;; Codec.latin1_decode b).

(** Lines 59-61: the line ends and the final newline. *)
Definition normalize (data : str) : str :=
  let data := Py.replace [CR] [LF] (Py.replace [CR; LF] [LF] data) in
  if negb (Py.endswith data [LF]) then data ++ [LF] else data.

Definition TPCH_DISTS : str := lit "TPCH_DISTS".

(** Lines 66-75: the generated unit. *)
Definition render (label delimiter data : str) : str :=
  (lit "/* Auto-generated from " ++ label ++ lit ". */" ++ [LF])
  ++ (lit "#include <cstddef>" ++ [LF; LF])
  ++ (lit "extern " ++ [DQUOTE] ++ lit "C" ++ [DQUOTE] ++ lit " {" ++ [LF])
  ++ (lit "extern const char tpch_dists_data[] = R" ++ [DQUOTE]
        ++ delimiter ++ lit "(" ++ [LF])
  ++ data
  ++ (lit ")" ++ delimiter ++ [DQUOTE] ++ lit ";" ++ [LF])
  ++ (lit "extern const size_t tpch_dists_size = sizeof(tpch_dists_data) - 1;"
        ++ [LF])
  ++ (lit "}  // extern " ++ [DQUOTE] ++ lit "C" ++ [DQUOTE] ++ [LF]).

(** The normalized Content of an input file. *)
Definition content (file : bytes) : outcome str :=
  data <- read_input file ;; Return (normalize data).

(** [main], after [parse_args]: the bytes written to the output path.
    The function then returns 0. *)
Definition main (fuel : nat) (a : args) (file : bytes) : outcome bytes :=
  data <- read_input file ;;
  let data := normalize data in
  delimiter <- choose_delimiter fuel data TPCH_DISTS ;;
  let label := label_of a in
  let output := render label delimiter data in
  Path.write_text_utf8 output.

(** ** The generated unit, read back

    What a C++ translation unit of the generated shape defines: the
    header comment runs to the first "*/"; the raw string literal
    R"delimiter( ... )delimiter" has as delimiter the characters up to the
    first "(", at most 16 of them and none of them a blank, a parenthesis
    or a backslash, and as value all the bytes up to the first occurrence
    of ")delimiter" followed by a double quote; an array of [char]
    initialised from a string literal holds the bytes of the literal and
    a terminating NUL; the size symbol is what its initialiser,
    [sizeof] of the array minus a decimal literal, evaluates to. A unit
    of another shape, or with a delimiter that is too long, defines
    nothing. *)

Module Cxx.

(** The text before and the text after the first occurrence of [m]. *)
Fixpoint split_first (m s : list N) : option (list N * list N) :=
  match Py.strip_prefix m s with
  | Some rest => Some ([], rest)
  | None =>
      match s with
      | [] => None
      | c :: s' =>
          match split_first m s' with
          | Some (before, after) => Some (c :: before, after)
          | None => None
          end
      end
  end.

(** The offset at which the first occurrence of [m] ends; 0 without
    one. *)
Definition first_end (m s : list N) : nat :=
  match split_first m s with
  | Some (before, _) => length before + length m
  | None => 0
  end.

(** The markers of a raw string literal: R"delimiter( and
    )delimiter". *)
Definition raw_open (delimiter : list N) : list N :=
  lit "R" ++ [DQUOTE] ++ delimiter ++ lit "(".

Definition raw_close (delimiter : list N) : list N :=
  lit ")" ++ delimiter ++ [DQUOTE].

(** The text of the unit between the header comment and the raw string
    literal. *)
Definition declaration : list N :=
  [LF] ++ (lit "#include <cstddef>" ++ [LF; LF])
  ++ (lit "extern " ++ [DQUOTE] ++ lit "C" ++ [DQUOTE] ++ lit " {" ++ [LF])
  ++ lit "extern const char tpch_dists_data[] = ".













End Cxx.

(** ** Inputs of the scenarios *)

(** "hello\r\nworld\r\n" *)
Definition hello_crlf : bytes :=
  [x68; x65; x6c; x6c; x6f; x0d; x0a; x77; x6f; x72; x6c; x64; x0d; x0a].

Definition args_default : args :=
  {| input := lit "dists.dss"; output := lit "dists_embedded.cc";
     label := None |}.

(** The same command line for a copy of the input file. *)
Definition args_copy : args :=
  {| input := lit "copy.dss"; output := lit "dists_embedded.cc";
     label := None |}.

(** A command line with a label. *)
Definition args_label : args :=
  {| input := lit "dists.dss"; output := lit "dists_embedded.cc";
     label := Some (lit "TPC-H distributions") |}.

(** The same label for another input path and another output path. *)
Definition args_relabel : args :=
  {| input := lit "copy.dss"; output := lit "generated/dists.cc";
     label := Some (lit "TPC-H distributions") |}.



(** * Properties *)

(** ** Sequences *)

Section Sequences.

Lemma strip_prefix_spec (p s r : str) :
  Py.strip_prefix p s = Some r <-> s = p ++ r.
Proof.
  revert s. induction p as [|x p IH]; intros s; simpl.
  - split; intros H; [inversion H|rewrite H]; reflexivity.
  - destruct s as [|c s]; [split; discriminate|].
    destruct (N.eqb_spec x c) as [->|Hne].
    + rewrite IH. split; intros H; [rewrite H|inversion H]; reflexivity.
    + split; [discriminate|]. intros H. inversion H. congruence.
Qed.

Lemma strip_prefix_app (p r : str) : Py.strip_prefix p (p ++ r) = Some r.
Proof. apply strip_prefix_spec. reflexivity. Qed.

Lemma startswith_spec (s p : str) :
  Py.startswith s p = true <-> exists r, s = p ++ r.
Proof.
  unfold Py.startswith. split.
  - destruct (Py.strip_prefix p s) as [r|] eqn:E; [|discriminate].
    intros _. exists r. apply strip_prefix_spec. exact E.
  - intros [r ->]. rewrite strip_prefix_app. reflexivity.
Qed.

(** [sub in s] holds exactly when [s] splits around [sub]. *)
Lemma contains_spec (sub s : str) :
  Py.contains sub s = true <-> exists pre post, s = pre ++ sub ++ post.
Proof.
  induction s as [|c s IH]; simpl.
  - rewrite orb_false_r, startswith_spec. split.
    + intros [r H]. exists [], r. exact H.
    + intros [pre [post H]]. destruct pre as [|x pre]; [|discriminate].
      exists post. exact H.
  - rewrite orb_true_iff, startswith_spec, IH. split.
    + intros [[r H]|[pre [post H]]].
      * exists [], r. exact H.
      * exists (c :: pre), post. simpl. f_equal. exact H.
    + intros [pre [post H]]. destruct pre as [|x pre].
      * left. exists post. exact H.
      * right. exists pre, post. simpl in H. inversion H. reflexivity.
Qed.

Lemma contains_false (sub s : str) :
  Py.contains sub s = false <-> forall pre post, s <> pre ++ sub ++ post.
Proof.
  split.
  - intros H pre post E.
    assert (Py.contains sub s = true) as T
        by (apply contains_spec; exists pre, post; exact E).
    congruence.
  - intros H. destruct (Py.contains sub s) eqn:E; [|reflexivity].
    apply contains_spec in E. destruct E as [pre [post E]].
    exfalso. exact (H pre post E).
Qed.

Lemma contains_nil_r (sub : str) : sub <> [] -> Py.contains sub [] = false.
Proof.
  intros H. apply contains_false. intros pre post E.
  symmetry in E. apply app_eq_nil in E. destruct E as [_ E].
  apply app_eq_nil in E. destruct E as [E _]. exact (H E).
Qed.

Lemma str_eqb_spec (a b : str) : Py.str_eqb a b = true <-> a = b.
Proof.
  revert b. induction a as [|x a IH]; intros [|y b]; simpl;
    try (split; [discriminate|discriminate]); try tauto.
  rewrite andb_true_iff, N.eqb_eq, IH. split.
  - intros [-> ->]. reflexivity.
  - intros H. inversion H. split; reflexivity.
Qed.

Lemma endswith_spec (s p : str) :
  Py.endswith s p = true <-> exists pre, s = pre ++ p.
Proof.
  unfold Py.endswith. rewrite andb_true_iff, Nat.leb_le, str_eqb_spec. split.
  - intros [Hlen H]. remember (length s - length p) as n eqn:En.
    exists (firstn n s). rewrite <- H. symmetry. apply firstn_skipn.
  - intros [pre ->]. rewrite length_app. split; [lia|].
    replace (length pre + length p - length p) with (length pre + 0) by lia.
    rewrite skipn_app. rewrite skipn_all2 by lia.
    replace (length pre + 0 - length pre) with 0 by lia. reflexivity.
Qed.

(** Two splits of one sequence at the same offset are the same split. *)
Lemma app_same_length (l1 r1 l2 r2 : str) :
  l1 ++ r1 = l2 ++ r2 -> length l1 = length l2 -> l1 = l2 /\ r1 = r2.
Proof.
  revert l2. induction l1 as [|x l1 IH]; intros [|y l2] H L;
    simpl in *; try discriminate.
  - split; [reflexivity|exact H].
  - inversion H; subst. destruct (IH l2) as [-> ->]; auto.
Qed.

(** A separator that occurs in neither head fixes both splits. *)
Lemma app_separator (u : N) (a b x y : str) :
  ~ In u a -> ~ In u b -> a ++ u :: x = b ++ u :: y -> a = b /\ x = y.
Proof.
  revert b. induction a as [|c a IH]; intros [|d b] Ha Hb H; simpl in *.
  - inversion H. split; reflexivity.
  - inversion H; subst. exfalso. apply Hb. left. reflexivity.
  - inversion H; subst. exfalso. apply Ha. left. reflexivity.
  - inversion H; subst. destruct (IH b) as [-> ->]; auto.
Qed.

End Sequences.

(** ** First occurrences *)

Section FirstOccurrence.

Lemma split_first_sound (m s before after : str) :
  Cxx.split_first m s = Some (before, after) -> s = before ++ m ++ after.
Proof.
  revert before. induction s as [|c s IH]; intros before; simpl.
  - destruct (Py.strip_prefix m []) as [r|] eqn:E; [|discriminate].
    intros H. inversion H; subst. apply strip_prefix_spec in E. exact E.
  - destruct (Py.strip_prefix m (c :: s)) as [r|] eqn:E.
    + intros H. inversion H; subst. apply strip_prefix_spec in E. exact E.
    + destruct (Cxx.split_first m s) as [[b a]|]; [|discriminate].
      intros H. inversion H; subst. simpl. f_equal. apply IH. reflexivity.
Qed.

(** No occurrence starts before the one [split_first] finds. *)
Lemma split_first_least (m s before after : str) :
  Cxx.split_first m s = Some (before, after) ->
  forall pre post, s = pre ++ m ++ post -> length before <= length pre.
Proof.
  revert before. induction s as [|c s IH]; intros before; simpl.
  - destruct (Py.strip_prefix m []); [|discriminate].
    intros H. inversion H; subst. intros; simpl; lia.
  - destruct (Py.strip_prefix m (c :: s)) as [r|] eqn:E.
    + intros H. inversion H; subst. intros; simpl; lia.
    + destruct (Cxx.split_first m s) as [[b a]|]; [|discriminate].
      intros H. inversion H; subst. intros pre post Hs.
      destruct pre as [|x pre].
      * simpl in Hs. rewrite Hs, strip_prefix_app in E. discriminate.
      * simpl in Hs. inversion Hs; subst.
        specialize (IH b eq_refl pre post eq_refl). simpl. lia.
Qed.

Lemma split_first_complete (m s : str) :
  Py.contains m s = true ->
  exists before after, Cxx.split_first m s = Some (before, after).
Proof.
  induction s as [|c s IH]; simpl; unfold Py.startswith.
  - destruct (Py.strip_prefix m []) as [r|]; [|discriminate].
    intros _. exists [], r. reflexivity.
  - destruct (Py.strip_prefix m (c :: s)) as [r|].
    + intros _. exists [], r. reflexivity.
    + simpl. intros H. destruct (IH H) as [b [a ->]].
      exists (c :: b), a. reflexivity.
Qed.

(** The first occurrence of [m] in [s ++ m ++ t] is the one written
    there as soon as none starts inside [s]. *)
Lemma split_first_app (m s t : str) :
  (forall pre post, s ++ m ++ t = pre ++ m ++ post -> length s <= length pre) ->
  Cxx.split_first m (s ++ m ++ t) = Some (s, t).
Proof.
  intros H.
  destruct (split_first_complete m (s ++ m ++ t)) as [b [a E]].
  { apply contains_spec. exists s, t. reflexivity. }
  pose proof (split_first_sound _ _ _ _ E) as Hs.
  pose proof (split_first_least _ _ _ _ E s t eq_refl) as Hle.
  pose proof (H b a Hs) as Hge.
  destruct (app_same_length s (m ++ t) b (m ++ a) Hs) as [-> Hr]; [lia|].
  apply app_inv_head in Hr. subst a. exact E.
Qed.

End FirstOccurrence.

(** ** Decimal numerals *)

Section Decimal.

Lemma digits_range (d : Decimal.uint) (c : N) :
  In c (Py.digits d) -> (48 <= c <= 57)%N.
Proof.
  induction d; simpl; intros H; try contradiction;
    (destruct H as [<-|H]; [lia|exact (IHd H)]).
Qed.

Lemma digits_inj (d d' : Decimal.uint) : Py.digits d = Py.digits d' -> d = d'.
Proof.
  revert d'. induction d; intros d'; destruct d'; simpl; intros H;
    try discriminate; try reflexivity;
    inversion H; f_equal; apply IHd; assumption.
Qed.

Lemma str_of_int_inj (j k : nat) : Py.str_of_int j = Py.str_of_int k -> j = k.
Proof.
  unfold Py.str_of_int. intros H.
  apply DecimalNat.Unsigned.to_uint_inj, digits_inj, H.
Qed.

Lemma str_of_int_no_underscore (k : nat) : ~ In USCORE (Py.str_of_int k).
Proof.
  unfold Py.str_of_int, USCORE. intros H. apply digits_range in H. lia.
Qed.

(** Two suffixed candidates that end at the same place are the same
    candidate: the underscore is not a digit. *)
Lemma suffix_digits_inj (x y : str) (j k : nat) :
  x ++ USCORE :: Py.str_of_int j = y ++ USCORE :: Py.str_of_int k -> j = k.
Proof.
  intros H. apply (f_equal (@List.rev N)) in H.
  rewrite !List.rev_app_distr in H. simpl in H. rewrite <- !app_assoc in H.
  simpl in H. apply app_separator in H.
  - destruct H as [H _]. apply (f_equal (@List.rev N)) in H.
    rewrite !List.rev_involutive in H. apply str_of_int_inj, H.
  - rewrite <- List.in_rev. apply str_of_int_no_underscore.
  - rewrite <- List.in_rev. apply str_of_int_no_underscore.
Qed.

End Decimal.

(** ** The delimiter *)

Section ChooseDelimiter.

Variables data base : str.

(** Candidate [k] collides: ")" + base + "_" + k is in [data]. *)
Local Abbreviation collides k :=
  (Py.contains (closing (suffixed base k)) data).

Lemma closing_suffixed (k : nat) :
  closing (suffixed base k) = (RPAREN :: base) ++ USCORE :: Py.str_of_int k.
Proof. reflexivity. Qed.

(** The loop returns the first candidate from [index] on that does not
    collide, when the fuel reaches it. *)
Lemma loop_returns (fuel index k : nat) :
  index <= k < index + fuel ->
  collides k = false ->
  (forall j, index <= j < k -> collides j = true) ->
  choose_delimiter_loop fuel data base index = Return (suffixed base k).
Proof.
  revert index. induction fuel as [|fuel IH]; intros index Hk Hfree Hbelow.
  - lia.
  - simpl. destruct (Nat.eq_dec index k) as [->|Hne].
    + fold (collides k). rewrite Hfree. reflexivity.
    + fold (collides index). rewrite Hbelow by lia. simpl.
      apply IH; [lia|exact Hfree|]. intros j Hj. apply Hbelow. lia.
Qed.

Lemma loop_inversion (fuel index : nat) (d : str) :
  choose_delimiter_loop fuel data base index = Return d ->
  exists k, index <= k < index + fuel /\ d = suffixed base k /\
            collides k = false /\
            forall j, index <= j < k -> collides j = true.
Proof.
  revert index. induction fuel as [|fuel IH]; intros index; simpl.
  - discriminate.
  - fold (collides index). destruct (collides index) eqn:E; simpl.
    + intros H. destruct (IH _ H) as [k [Hk [Hd [Hfree Hbelow]]]].
      exists k. split; [lia|]. split; [exact Hd|]. split; [exact Hfree|].
      intros j Hj. destruct (Nat.eq_dec j index) as [->|Hne]; [exact E|].
      apply Hbelow. lia.
    + intros H. inversion H; subst. exists index.
      split; [lia|]. split; [reflexivity|]. split; [exact E|].
      intros j Hj. lia.
Qed.

Lemma loop_never_raises (fuel index : nat) (e : exn) :
  choose_delimiter_loop fuel data base index <> Raise e.
Proof.
  revert index. induction fuel as [|fuel IH]; intros index; simpl.
  - discriminate.
  - destruct (negb _); [discriminate|apply IH].
Qed.

Lemma loop_out_of_fuel (fuel index : nat) :
  choose_delimiter_loop fuel data base index = OutOfFuel ->
  forall j, index <= j < index + fuel -> collides j = true.
Proof.
  revert index. induction fuel as [|fuel IH]; intros index; simpl.
  - intros _ j Hj. lia.
  - fold (collides index). destruct (collides index) eqn:E; simpl.
    + intros H j Hj. destruct (Nat.eq_dec j index) as [->|Hne]; [exact E|].
      apply (IH _ H). lia.
    + discriminate.
Qed.

(** Where the first occurrence of candidate [k] ends in [data]. *)
Local Abbreviation end_of k :=
  (Cxx.first_end (closing (suffixed base k)) data).

Lemma end_of_range (k : nat) :
  collides k = true -> 1 <= end_of k <= length data.
Proof.
  intros H. apply split_first_complete in H. destruct H as [b [a E]].
  unfold Cxx.first_end. rewrite E. apply split_first_sound in E.
  rewrite E, !length_app. simpl. lia.
Qed.

Lemma end_of_inj (j k : nat) :
  collides j = true -> collides k = true -> end_of j = end_of k -> j = k.
Proof.
  intros Hj Hk. unfold Cxx.first_end.
  apply split_first_complete in Hj. destruct Hj as [bj [aj Ej]].
  apply split_first_complete in Hk. destruct Hk as [bk [ak Ek]].
  rewrite Ej, Ek. apply split_first_sound in Ej, Ek. intros L.
  rewrite Ej in Ek at 1. rewrite !app_assoc in Ek.
  apply app_same_length in Ek; [|rewrite !length_app; exact L].
  destruct Ek as [Ek _]. rewrite !closing_suffixed, !app_assoc in Ek.
  apply suffix_digits_inj in Ek. exact Ek.
Qed.

(** Candidates 1..n cannot all collide once [n] exceeds the length of
    [data]: their first occurrences end at distinct places. *)
Lemma collisions_bounded (n : nat) :
  (forall j, 1 <= j <= n -> collides j = true) -> n <= length data.
Proof.
  intros H. set (ends := map (fun k => end_of k) (seq 1 n)).
  assert (NoDup ends) as Hnd.
  { apply NoDup_map_NoDup_ForallPairs; [|apply seq_NoDup].
    intros j k Hj Hk. apply in_seq in Hj, Hk.
    apply end_of_inj; apply H; lia. }
  assert (incl ends (seq 1 (length data))) as Hin.
  { intros e He. apply in_map_iff in He. destruct He as [j [<- Hj]].
    apply in_seq in Hj. apply in_seq.
    pose proof (end_of_range j (H j ltac:(lia))). lia. }
  pose proof (NoDup_incl_length Hnd Hin) as L. unfold ends in L.
  rewrite length_map, !length_seq in L. exact L.
Qed.

(** The loop returns within [length data + 1] iterations. *)
Lemma loop_terminates (extra : nat) :
  exists k, 1 <= k <= length data + 1 /\
    choose_delimiter_loop (length data + 1 + extra) data base 1
    = Return (suffixed base k).
Proof.
  destruct (choose_delimiter_loop (length data + 1 + extra) data base 1)
    as [d|e|] eqn:E.
  - apply loop_inversion in E. destruct E as [k [Hk [-> [Hfree Hbelow]]]].
    exists k. split; [|reflexivity]. split; [lia|].
    pose proof (collisions_bounded (k - 1)) as B.
    assert (k - 1 <= length data); [|lia].
    apply B. intros j Hj. apply Hbelow. lia.
  - exfalso. exact (loop_never_raises _ _ _ E).
  - exfalso. pose proof (loop_out_of_fuel _ _ E) as Hall.
    pose proof (collisions_bounded (length data + 1)) as B.
    assert (length data + 1 <= length data); [|lia].
    apply B. intros j Hj. apply Hall. lia.
Qed.

(** The result does not depend on the fuel, as soon as it is enough. *)
Lemma choose_delimiter_fuel (fuel fuel' : nat) (d d' : str) :
  choose_delimiter fuel data base = Return d ->
  choose_delimiter fuel' data base = Return d' -> d = d'.
Proof.
  unfold choose_delimiter. destruct (negb _).
  - congruence.
  - intros H H'. apply loop_inversion in H, H'.
    destruct H as [k [R [-> [Hk Hb]]]]. destruct H' as [k' [R' [-> [Hk' Hb']]]].
    destruct (Nat.lt_trichotomy k k') as [L|[->|L]]; [|reflexivity|].
    + rewrite Hb' in Hk by lia. discriminate.
    + rewrite Hb in Hk' by lia. discriminate.
Qed.

Lemma choose_delimiter_never_raises (fuel : nat) (e : exn) :
  choose_delimiter fuel data base <> Raise e.
Proof.
  unfold choose_delimiter. destruct (negb _); [discriminate|].
  apply loop_never_raises.
Qed.

Lemma choose_delimiter_safe (fuel : nat) (d : str) :
  choose_delimiter fuel data base = Return d ->
  Py.contains (closing d) data = false.
Proof.
  unfold choose_delimiter.
  destruct (Py.contains (closing base) data) eqn:E; simpl.
  - intros H. apply loop_inversion in H.
    destruct H as [k [_ [-> [H _]]]]. exact H.
  - intros H. inversion H; subst. exact E.
Qed.

(** With [length data + 1] iterations or more, [choose_delimiter]
    returns, and always the same delimiter. *)
Lemma choose_delimiter_returns :
  exists d,
    (forall extra,
        choose_delimiter (length data + 1 + extra) data base = Return d)
    /\ Py.contains (closing d) data = false.
Proof.
  assert (forall extra, exists d,
             choose_delimiter (length data + 1 + extra) data base = Return d)
    as T.
  { intros extra. unfold choose_delimiter. destruct (negb _).
    - exists base. reflexivity.
    - destruct (loop_terminates extra) as [k [_ E]].
      exists (suffixed base k). exact E. }
  destruct (T 0) as [d E]. exists d. split.
  - intros extra. destruct (T extra) as [d' E'].
    rewrite (choose_delimiter_fuel _ _ _ _ E E'). exact E'.
  - exact (choose_delimiter_safe _ _ E).
Qed.

End ChooseDelimiter.

(** ** The length of the decimal numerals and of the delimiter *)

Section DelimiterLength.

Lemma digits_length (d : Decimal.uint) :
  length (Py.digits d) = Decimal.nb_digits d.
Proof. induction d; simpl; congruence. Qed.

(** One more decimal digit for ten times more. *)
Lemma to_lu_step (q r : nat) :
  q <> 0 -> r < 10 ->
  Decimal.nb_digits (Unsigned.to_lu (r + 10 * q))
  = S (Decimal.nb_digits (Unsigned.to_lu q)).
Proof.
  intros Hq Hr.
  do 10 (destruct r as [|r];
         [cbn [Nat.add Unsigned.to_lu];
          rewrite (Unsigned.to_lu_tenfold q Hq); reflexivity|]).
  lia.
Qed.

Lemma to_lu_digits (m n : nat) :
  1 <= m -> n < 10 ^ m -> Decimal.nb_digits (Unsigned.to_lu n) <= m.
Proof.
  revert n. induction m as [|m IH]; intros n Hm Hn; [lia|].
  destruct (Nat.lt_ge_cases n 10) as [L|L].
  - do 10 (destruct n as [|n]; [simpl; lia|]). lia.
  - rewrite Nat.pow_succ_r' in Hn.
    assert (1 <= m) as Hm'.
    { destruct m; [simpl in Hn; lia|lia]. }
    pose proof (Nat.div_mod_eq n 10) as E.
    assert (n / 10 < 10 ^ m) as Hq
        by (apply Nat.Div0.div_lt_upper_bound; lia).
    assert (n / 10 <> 0) as Hq0.
    { intros Z. rewrite Z in E. pose proof (Nat.mod_upper_bound n 10). lia. }
    rewrite E, Nat.add_comm, to_lu_step;
      [|exact Hq0|apply Nat.mod_upper_bound; lia].
    specialize (IH (n / 10) Hm' Hq). lia.
Qed.

(** [str(k)] has at most [m] characters for [k] below [10 ^ m]. *)
Lemma str_of_int_length (m k : nat) :
  1 <= m -> k < 10 ^ m -> length (Py.str_of_int k) <= m.
Proof.
  intros Hm Hk. unfold Py.str_of_int.
  rewrite digits_length, Unsigned.to_uint_alt, DecimalFacts.nb_digits_rev.
  apply to_lu_digits; assumption.
Qed.

End DelimiterLength.


(** C5: for every content and every base token, [choose_delimiter]
    terminates: the candidates ")" + base + "_" + k are distinct strings
    and only finitely many of them fit in the content, so the loop returns
    after at most [len(data) + 1] iterations, whatever fuel it has beyond
    that. *)
Theorem choose_delimiter_terminates (data base : str) :
  exists d, forall extra,
    choose_delimiter (length data + 1 + extra) data base = Return d.
Proof.
  destruct (choose_delimiter_returns data base) as [d [H _]].
  exists d. exact H.
Qed.

(** C2: for every content and the base token "TPCH_DISTS", the delimiter
    D that [choose_delimiter] returns is such that ")" + D occurs nowhere
    in the content. *)
Theorem chosen_delimiter_absent (data : str) :
  exists d,
    (forall extra,
        choose_delimiter (length data + 1 + extra) data TPCH_DISTS = Return d)
    /\ (forall fuel d',
           choose_delimiter fuel data TPCH_DISTS = Return d' -> d' = d)
    /\ Py.contains (closing d) data = false
    /\ (forall pre post, data <> pre ++ closing d ++ post).
Proof.
  destruct (choose_delimiter_returns data TPCH_DISTS) as [d [H Habs]].
  exists d. split; [exact H|]. split; [|split].
  - intros fuel d' E'. exact (choose_delimiter_fuel _ _ _ _ _ _ E' (H 0)).
  - exact Habs.
  - apply contains_false. exact Habs.
Qed.

(** C4: [choose_delimiter] returns the base itself whenever ")" + base is
    not in the content, in particular for the empty content; otherwise it
    returns base + "_" + k for the least k >= 1 such that
    ")" + base + "_" + k is not in the content. *)
Theorem choose_delimiter_least (data base : str) :
  (Py.contains (closing base) data = false ->
   forall fuel, choose_delimiter fuel data base = Return base)
  /\ (Py.contains (closing base) data = true ->
      exists k, 1 <= k
        /\ (forall extra,
               choose_delimiter (length data + 1 + extra) data base
               = Return (suffixed base k))
        /\ Py.contains (closing (suffixed base k)) data = false
        /\ (forall j, 1 <= j < k ->
                      Py.contains (closing (suffixed base j)) data = true))
  /\ (forall fuel, choose_delimiter fuel [] base = Return base).
Proof.
  split; [|split].
  - intros H fuel. unfold choose_delimiter. rewrite H. reflexivity.
  - intros H.
    destruct (loop_terminates data base 0) as [k [Hk E]].
    pose proof (loop_inversion _ _ _ _ _ E) as [k' [R [Ek [Hfree Hbelow]]]].
    exists k'. split; [lia|]. split; [|split; assumption].
    intros extra. unfold choose_delimiter. rewrite H. simpl.
    apply loop_returns; [lia|exact Hfree|exact Hbelow].
  - intros fuel. unfold choose_delimiter.
    rewrite contains_nil_r by discriminate. reflexivity.
Qed.

(** Scenario B: a content with ")TPCH_DISTS" gets "TPCH_DISTS_1", and
    "TPCH_DISTS_2" when ")TPCH_DISTS_1" is there too. *)
Example choose_delimiter_scenario_B :
  choose_delimiter 1 (lit "a)TPCH_DISTS b") TPCH_DISTS
  = Return (lit "TPCH_DISTS_1")
  /\ choose_delimiter 2 (lit ")TPCH_DISTS_1)TPCH_DISTS") TPCH_DISTS
     = Return (lit "TPCH_DISTS_2")
  /\ choose_delimiter 0 (lit "TPCH_DISTS") TPCH_DISTS = Return TPCH_DISTS.
Proof. repeat split. Qed.

(** ** Line ends *)

Section Normalization.

Lemma replace_cons (o : N) (old' new : str) (c : N) (s' : str) :
  Py.replace (o :: old') new (c :: s') =
  match Py.strip_prefix (o :: old') (c :: s') with
  | Some rest => new ++ Py.replace (o :: old') new rest
  | None => c :: Py.replace (o :: old') new s'
  end.
Proof.
  rewrite Py.replace_equation_3.
  assert (forall b (E : Py.strip_prefix (o :: old') (c :: s') = b),
    Py.replace_unfold_clause_3 o old' new c s' (exist _ b E) =
    match b with
    | Some rest => new ++ Py.replace (o :: old') new rest
    | None => c :: Py.replace (o :: old') new s'
    end) as A.
  { intros [rest|] E; reflexivity. }
  apply (A _ eq_refl).
Qed.

(** Nothing is replaced where [old] does not occur. *)
Lemma replace_absent (o : N) (old' new s : str) :
  Py.contains (o :: old') s = false -> Py.replace (o :: old') new s = s.
Proof.
  induction s as [|c s IH]; intros H.
  - apply Py.replace_equation_2.
  - rewrite replace_cons. cbn [Py.contains] in H.
    apply orb_false_iff in H. destruct H as [H1 H2].
    unfold Py.startswith in H1.
    destruct (Py.strip_prefix (o :: old') (c :: s)); [discriminate|].
    f_equal. apply IH, H2.
Qed.

(** Replacing a character leaves none of it. *)
Lemma replace_char_gone (o : N) (new s : str) :
  ~ In o new -> ~ In o (Py.replace [o] new s).
Proof.
  intros Hnew. induction s as [|c s IH].
  - rewrite Py.replace_equation_2. simpl. tauto.
  - rewrite replace_cons. simpl. destruct (N.eqb_spec o c) as [->|Hne].
    + rewrite in_app_iff. tauto.
    + simpl. intros [E|H]; [congruence|exact (IH H)].
Qed.

(** The characters of the result are characters of [s] or of [new]. *)
Lemma replace_Forall (P : N -> Prop) (old new s : str) :
  Forall P new -> Forall P s -> Forall P (Py.replace old new s).
Proof.
  intros Hnew. destruct old as [|o old'].
  - intros Hs. rewrite Py.replace_equation_1. apply Forall_app. split; [exact Hnew|].
    induction Hs as [|c s Hc Hs IH]; simpl; [constructor|].
    constructor; [exact Hc|]. apply Forall_app. split; assumption.
  - remember (length s) as n eqn:En. revert s En.
    induction n as [n IH] using lt_wf_ind. intros s En Hs.
    destruct s as [|c s].
    + rewrite Py.replace_equation_2. constructor.
    + rewrite replace_cons.
      destruct (Py.strip_prefix (o :: old') (c :: s)) as [rest|] eqn:E.
      * apply strip_prefix_spec in E. apply Forall_app. split; [exact Hnew|].
        assert (Forall P rest) as Hr.
        { rewrite E in Hs. apply Forall_app in Hs. tauto. }
        apply (IH (length rest)); [|reflexivity|exact Hr].
        subst n. rewrite E, length_app. simpl. lia.
      * inversion Hs; subst. constructor; [assumption|].
        apply (IH (length s)); [simpl; lia|reflexivity|assumption].
Qed.

Lemma contains_needs (c : N) (m s : str) :
  In c m -> ~ In c s -> Py.contains m s = false.
Proof.
  intros Hm Hs. apply contains_false. intros pre post E. apply Hs.
  rewrite E, !in_app_iff. tauto.
Qed.

Lemma normalize_cases (data : str) :
  let t := Py.replace [CR] [LF] (Py.replace [CR; LF] [LF] data) in
  (Py.endswith t [LF] = true /\ normalize data = t)
  \/ (Py.endswith t [LF] = false /\ normalize data = t ++ [LF]).
Proof.
  unfold normalize. simpl.
  destruct (Py.endswith _ [LF]); simpl; [left|right]; split; reflexivity.
Qed.

Lemma normalize_no_CR (data : str) : ~ In CR (normalize data).
Proof.
  assert (~ In CR (Py.replace [CR] [LF] (Py.replace [CR; LF] [LF] data))) as H.
  { apply replace_char_gone. simpl. unfold CR, LF. intros [E|[]]. discriminate. }
  destruct (normalize_cases data) as [[_ ->]|[_ ->]]; [exact H|].
  rewrite in_app_iff. simpl. unfold CR, LF in *. intros [I|[I|[]]];
    [exact (H I)|discriminate].
Qed.

Lemma normalize_ends_with_LF (data : str) :
  exists pre, normalize data = pre ++ [LF].
Proof.
  destruct (normalize_cases data) as [[E ->]|[_ ->]].
  - apply endswith_spec, E.
  - eexists. reflexivity.
Qed.

(** A text without "\r" that ends with "\n" is left as it is. *)
Lemma normalize_fixpoint (s : str) :
  ~ In CR s -> (exists pre, s = pre ++ [LF]) -> normalize s = s.
Proof.
  intros Hcr Hlf. unfold normalize.
  rewrite (replace_absent CR [LF] [LF] s)
    by (apply (contains_needs CR); [left; reflexivity|exact Hcr]).
  rewrite (replace_absent CR [] [LF] s)
    by (apply (contains_needs CR); [left; reflexivity|exact Hcr]).
  apply endswith_spec in Hlf. simpl. rewrite Hlf. reflexivity.
Qed.

End Normalization.

(** C10: the normalization of lines 59-61 (replace "\r\n" by "\n", then
    "\r" by "\n", then append "\n" when the text does not end with one) is
    idempotent on every string. *)
Theorem normalize_idempotent (data : str) :
  normalize (normalize data) = normalize data.
Proof.
  apply normalize_fixpoint.
  - apply normalize_no_CR.
  - apply normalize_ends_with_LF.
Qed.

(** ** Decoding the input *)

Section Decoding.

Lemma between_spec (lo x hi : N) :
  Codec.between lo x hi = true <-> (lo <= x <= hi)%N.
Proof.
  unfold Codec.between. rewrite andb_true_iff, !N.leb_le. tauto.
Qed.

(** The strict decoder returns characters that UTF-8 encodes, or raises
    [UnicodeDecodeError]. *)
Lemma utf8_decode_outcome (bs : bytes) :
  (exists s, Codec.utf8_decode bs = Return s /\ Forall Codec.scalar s)
  \/ Codec.utf8_decode bs = Raise UnicodeDecodeError.
Proof.
  remember (length bs) as n eqn:En. revert bs En.
  induction n as [n IH] using lt_wf_ind. intros bs En.
  assert (forall r c, length r < n -> Codec.scalar c ->
            (exists s, (s <- Codec.utf8_decode r ;; Return (c :: s)) = Return s
                       /\ Forall Codec.scalar s)
            \/ (s <- Codec.utf8_decode r ;; Return (c :: s))
               = Raise UnicodeDecodeError) as Step.
  { intros r c Hr Hc. destruct (IH _ Hr r eq_refl) as [[s [-> Hs]] | ->].
    - left. exists (c :: s). split; [reflexivity|]. constructor; assumption.
    - right. reflexivity. }
  destruct bs as [|b0 r0]; [left; exists []; split; [reflexivity|constructor]|].
  cbn [Codec.utf8_decode]. subst n. cbn [length] in Step.
  pose proof (Byte.to_N_bounded b0) as B0.
  destruct (N.ltb_spec (Byte.to_N b0) 0x80) as [L0|L0].
  { apply Step; [lia|]. unfold Codec.scalar. lia. }
  destruct (Codec.between 0xC2 (Byte.to_N b0) 0xDF) eqn:E2.
  { apply between_spec in E2. destruct r0 as [|b1 r1]; [right; reflexivity|].
    destruct (Codec.between 0x80 (Byte.to_N b1) 0xBF) eqn:C1;
      [|right; reflexivity].
    apply between_spec in C1.
    apply Step; [simpl; lia|]. unfold Codec.scalar. lia. }
  destruct (Codec.between 0xE0 (Byte.to_N b0) 0xEF) eqn:E3.
  { apply between_spec in E3.
    destruct r0 as [|b1 [|b2 r2]]; try (right; reflexivity).
    match goal with |- context [if ?c then _ else _] =>
      destruct c eqn:C; [|right; reflexivity] end.
    apply andb_true_iff in C. destruct C as [C1 C2].
    apply between_spec in C1, C2.
    apply Step; [simpl; lia|]. unfold Codec.scalar.
    destruct (N.eqb_spec (Byte.to_N b0) 0xE0) as [Z0|Z0];
      destruct (N.eqb_spec (Byte.to_N b0) 0xED) as [Z1|Z1]; lia. }
  destruct (Codec.between 0xF0 (Byte.to_N b0) 0xF4) eqn:E4;
    [|right; reflexivity].
  apply between_spec in E4.
  destruct r0 as [|b1 [|b2 [|b3 r3]]]; try (right; reflexivity).
  match goal with |- context [if ?c then _ else _] =>
    destruct c eqn:C; [|right; reflexivity] end.
  apply andb_true_iff in C. destruct C as [C C3].
  apply andb_true_iff in C. destruct C as [C1 C2].
  apply between_spec in C1, C2, C3.
  apply Step; [simpl; lia|]. unfold Codec.scalar.
  destruct (N.eqb_spec (Byte.to_N b0) 0xF0) as [Z0|Z0];
    destruct (N.eqb_spec (Byte.to_N b0) 0xF4) as [Z1|Z1]; lia.
Qed.

Lemma latin1_scalar (bs : bytes) : Forall Codec.scalar (map Byte.to_N bs).
Proof.
  apply Forall_map, Forall_forall. intros b _.
  pose proof (Byte.to_N_bounded b). unfold Codec.scalar. lia.
Qed.

(** What the [try] of lines 54-57 leaves in [data]. *)
Lemma read_input_cases (file : bytes) :
  (exists s, Codec.utf8_decode file = Return s
             /\ read_input file = Return (Path.universal_newlines s))
  \/ (Codec.utf8_decode file = Raise UnicodeDecodeError
      /\ read_input file = Return (map Byte.to_N file)).
Proof.
  unfold read_input, Path.read_text_utf8.
  destruct (utf8_decode_outcome file) as [[s [E _]]|E]; rewrite E.
  - left. exists s. split; reflexivity.
  - right. split; reflexivity.
Qed.

Lemma read_input_scalar (file : bytes) :
  exists data, read_input file = Return data /\ Forall Codec.scalar data.
Proof.
  destruct (read_input_cases file) as [[s [E ->]] | [_ ->]].
  - eexists. split; [reflexivity|].
    destruct (utf8_decode_outcome file) as [[s' [E' Hs]]|E']; [|congruence].
    assert (s' = s) by congruence. subst s'.
    assert (Forall Codec.scalar [LF]) as HLF
        by (repeat constructor; unfold Codec.scalar, LF; lia).
    unfold Path.universal_newlines.
    apply replace_Forall; [exact HLF|]. apply replace_Forall; assumption.
  - eexists. split; [reflexivity|]. apply latin1_scalar.
Qed.

Lemma normalize_scalar (data : str) :
  Forall Codec.scalar data -> Forall Codec.scalar (normalize data).
Proof.
  intros H.
  assert (Forall Codec.scalar [LF]) as HLF
      by (repeat constructor; unfold Codec.scalar, LF; lia).
  assert (Forall Codec.scalar
            (Py.replace [CR] [LF] (Py.replace [CR; LF] [LF] data))) as Ht.
  { apply replace_Forall; [exact HLF|]. apply replace_Forall; assumption. }
  destruct (normalize_cases data) as [[_ ->]|[_ ->]]; [exact Ht|].
  apply Forall_app. split; assumption.
Qed.

(** The Content of every input file. *)
Lemma content_returns (file : bytes) :
  exists data, read_input file = Return data
               /\ content file = Return (normalize data)
               /\ Forall Codec.scalar (normalize data).
Proof.
  destruct (read_input_scalar file) as [data [E H]]. exists data.
  split; [exact E|]. split; [unfold content; rewrite E; reflexivity|].
  apply normalize_scalar, H.
Qed.

End Decoding.

(** C7: when the UTF-8 decoding of the input raises, [main] decodes the
    same bytes as Latin-1, which returns for every byte sequence; so for
    every input file the decoding step returns a string and raises
    nothing. *)
Theorem read_input_total (file : bytes) :
  (exists s, Codec.latin1_decode file = Return s)
  /\ (forall e, Path.read_text_utf8 file = Raise e ->
                e = UnicodeDecodeError
                /\ read_input file = Codec.latin1_decode file)
  /\ (exists data, read_input file = Return data).
Proof.
  split; [eexists; reflexivity|]. split.
  - intros e H. unfold read_input. rewrite H.
    unfold Path.read_text_utf8 in H.
    destruct (utf8_decode_outcome file) as [[s [E _]]|E]; rewrite E in H;
      simpl in H; [discriminate|].
    inversion H; subst. split; reflexivity.
  - destruct (read_input_cases file) as [[s [_ E]]|[_ E]];
      eexists; exact E.
Qed.

(** Scenario E: a file that is not UTF-8 (a lone byte 0xFF before the
    line end) is read as Latin-1. *)
Example read_input_scenario_E :
  Codec.utf8_decode [xff; x0d; x0a] = Raise UnicodeDecodeError
  /\ read_input [xff; x0d; x0a] = Return [255%N; CR; LF]
  /\ content [xff; x0d; x0a] = Return [255%N; LF].
Proof. repeat split. Qed.

(** C3, as the claim states it, fails: the Content of "a\n\n" ends with
    two "\n". *)
Lemma content_keeps_blank_last_line :
  content [x61; x0a; x0a] = Return [97%N; LF; LF]
  /\ ~ (forall file c, content file = Return c ->
          exists pre, c = pre ++ [LF] /\ forall pre', pre <> pre' ++ [LF]).
Proof.
  split; [reflexivity|]. intros H.
  destruct (H [x61; x0a; x0a] [97%N; LF; LF] eq_refl) as [pre [E Hpre]].
  apply (Hpre [97%N]).
  change [97%N; LF; LF] with (([97%N] ++ [LF]) ++ [LF]) in E.
  apply app_inj_tail in E. destruct E as [E _]. symmetry. exact E.
Qed.

(** C3, amended: for every input byte sequence the normalized Content
    has no "\r" and ends with "\n"; it is the text with its line ends
    converted, to which one "\n" is appended only when that text does not
    end with one. The newlines the text already ends with are kept. *)
Theorem content_line_ends (file : bytes) :
  exists data c,
    read_input file = Return data
    /\ content file = Return c
    /\ ~ In CR c
    /\ (exists pre, c = pre ++ [LF])
    /\ let t := Py.replace [CR] [LF] (Py.replace [CR; LF] [LF] data) in
       (c = t /\ exists pre, t = pre ++ [LF])
       \/ (c = t ++ [LF] /\ forall pre, t <> pre ++ [LF]).
Proof.
  destruct (content_returns file) as [data [E [Ec _]]].
  exists data, (normalize data). split; [exact E|]. split; [exact Ec|].
  split; [apply normalize_no_CR|]. split; [apply normalize_ends_with_LF|].
  destruct (normalize_cases data) as [[H ->]|[H ->]]; simpl.
  - left. split; [reflexivity|]. apply endswith_spec, H.
  - right. split; [reflexivity|]. intros pre Ep.
    assert (Py.endswith (Py.replace [CR] [LF] (Py.replace [CR; LF] [LF] data))
                        [LF] = true) as T
        by (apply endswith_spec; exists pre; exact Ep).
    congruence.
Qed.

(** ** Encoding the output *)

(** [lia] with the divisions by constants of the encoder. *)
Ltac lia_div := zify; Z.to_euclidean_division_equations; lia.

Section Encoding.

Lemma to_N_byte_of (n : N) : (n < 256)%N -> Byte.to_N (Codec.byte_of n) = n.
Proof.
  intros H. unfold Codec.byte_of. destruct (Byte.of_N n) as [b|] eqn:E.
  - apply Byte.to_of_N, E.
  - apply Byte.of_N_None_iff in E. lia.
Qed.

Lemma utf8_octets_ascii (c : N) : Codec.ascii c -> Codec.utf8_octets c = [c].
Proof.
  unfold Codec.ascii, Codec.utf8_octets, Codec.utf8_encode_char. intros H.
  destruct (N.ltb_spec c 0x80) as [_|L]; [|lia].
  cbn [octets map]. rewrite to_N_byte_of by lia. reflexivity.
Qed.

Ltac high_bytes :=
  repeat (apply Forall_cons; [rewrite to_N_byte_of; lia_div|]);
  apply Forall_nil.

(** The bytes of a character that is not ASCII are all above 0x7F. *)
Lemma utf8_octets_high (c : N) :
  ~ Codec.ascii c -> Forall (fun x => 0x80 <= x)%N (Codec.utf8_octets c).
Proof.
  unfold Codec.ascii, Codec.utf8_octets, Codec.utf8_encode_char. intros H.
  destruct (N.ltb_spec c 0x80) as [L|_]; [lia|].
  destruct (N.ltb_spec c 0x800) as [L1|L1].
  { cbn [octets map]. high_bytes. }
  destruct (N.ltb_spec c 0x10000) as [L2|L2].
  { destruct (Codec.between 0xD800 c 0xDFFF); [constructor|].
    cbn [octets map]. high_bytes. }
  destruct (N.ltb_spec c 0x110000) as [L3|L3]; [|constructor].
  cbn [octets map]. high_bytes.
Qed.

Lemma utf8_encode_char_scalar (c : N) :
  Codec.scalar c -> exists b, Codec.utf8_encode_char c = Return b.
Proof.
  unfold Codec.scalar, Codec.utf8_encode_char. intros H.
  destruct (c <? 0x80)%N; [eexists; reflexivity|].
  destruct (c <? 0x800)%N; [eexists; reflexivity|].
  destruct (N.ltb_spec c 0x10000) as [L2|L2].
  { destruct (Codec.between 0xD800 c 0xDFFF) eqn:E; [|eexists; reflexivity].
    apply between_spec in E. lia. }
  destruct (N.ltb_spec c 0x110000) as [L3|L3]; [eexists; reflexivity|lia].
Qed.

(** The encoder returns on the strings without surrogates, and its
    bytes are those of the characters, one after the other. *)
Lemma utf8_encode_scalar (s : str) :
  Forall Codec.scalar s ->
  exists b, Codec.utf8_encode s = Return b
            /\ octets b = flat_map Codec.utf8_octets s.
Proof.
  induction 1 as [|c s Hc Hs [r [Er Hr]]].
  - exists []. split; reflexivity.
  - destruct (utf8_encode_char_scalar c Hc) as [b Eb].
    exists (b ++ r). cbn [Codec.utf8_encode flat_map]. rewrite Eb, Er.
    split; [reflexivity|]. unfold octets in *. rewrite map_app, Hr.
    unfold Codec.utf8_octets. rewrite Eb. reflexivity.
Qed.

Lemma utf8_encode_raises (s : str) :
  ~ Forall Codec.scalar s ->
  Codec.utf8_encode s = Raise UnicodeEncodeError.
Proof.
  induction s as [|c s IH]; intros H.
  - exfalso. apply H. constructor.
  - cbn [Codec.utf8_encode].
    unfold Codec.utf8_encode_char.
    destruct (N.ltb_spec c 0x80) as [L0|L0];
      [|destruct (N.ltb_spec c 0x800) as [L1|L1];
        [|destruct (N.ltb_spec c 0x10000) as [L2|L2];
          [destruct (Codec.between 0xD800 c 0xDFFF) eqn:B; [reflexivity|]
          |destruct (N.ltb_spec c 0x110000) as [L3|L3]; [|reflexivity]]]];
      (assert (Codec.scalar c) as Hc;
       [unfold Codec.scalar;
        try (assert (~ (0xD800 <= c <= 0xDFFF)%N)
              by (rewrite <- between_spec; congruence)); lia|]);
      (rewrite IH; [reflexivity|];
       intros Hs; apply H; constructor; assumption).
Qed.

Lemma flat_map_ascii (m : str) :
  Forall Codec.ascii m -> flat_map Codec.utf8_octets m = m.
Proof.
  induction 1 as [|c m Hc Hm IH]; [reflexivity|].
  simpl. rewrite utf8_octets_ascii, IH by exact Hc. reflexivity.
Qed.

Lemma ascii_check (m : str) :
  forallb (fun c => c <? 0x80)%N m = true -> Forall Codec.ascii m.
Proof.
  rewrite forallb_forall, Forall_forall. intros H c Hc.
  apply N.ltb_lt, H, Hc.
Qed.

Lemma utf8_octets_nonempty (c : N) :
  Codec.scalar c -> Codec.utf8_octets c <> [].
Proof.
  intros H. destruct (utf8_encode_char_scalar c H) as [b E].
  unfold Codec.utf8_octets. rewrite E.
  unfold Codec.utf8_encode_char in E.
  repeat match type of E with
         | (if ?c then _ else _) = _ => destruct c
         end; inversion E; discriminate.
Qed.

Lemma contains_cons (m : str) (c : N) (s : str) :
  Py.contains m (c :: s) = Py.startswith (c :: s) m || Py.contains m s.
Proof. reflexivity. Qed.

(** No ASCII text starts inside the bytes of a character that is not
    ASCII. *)
Lemma contains_skip_high (x : N) (m' h t : str) :
  Codec.ascii x -> Forall (fun y => 0x80 <= y)%N h ->
  Py.contains (x :: m') (h ++ t) = Py.contains (x :: m') t.
Proof.
  intros Hx. induction 1 as [|y h Hy Hh IH]; [reflexivity|].
  rewrite <- app_comm_cons, contains_cons, IH. unfold Py.startswith. simpl.
  destruct (N.eqb_spec x y) as [->|_]; [unfold Codec.ascii in Hx; lia|].
  reflexivity.
Qed.

Lemma startswith_octets (m s : str) :
  Forall Codec.ascii m -> Forall Codec.scalar s ->
  Py.startswith (flat_map Codec.utf8_octets s) m = true ->
  Py.startswith s m = true.
Proof.
  intros Hm. revert s. induction Hm as [|x m Hx Hm IH]; intros s Hs.
  - reflexivity.
  - destruct Hs as [|c s Hc Hs]; [discriminate|]. cbn [flat_map].
    destruct (N.ltb_spec c 0x80) as [Lc|Lc].
    + rewrite utf8_octets_ascii by exact Lc. unfold Py.startswith. simpl.
      destruct (x =? c)%N; [|discriminate]. apply IH, Hs.
    + pose proof (utf8_octets_nonempty c Hc) as Hne.
      assert (~ Codec.ascii c) as Hna by (unfold Codec.ascii; lia).
      pose proof (utf8_octets_high c Hna) as Hh.
      destruct (Codec.utf8_octets c) as [|y h]; [congruence|].
      inversion Hh; subst. unfold Py.startswith. simpl.
      destruct (N.eqb_spec x y) as [->|_];
        [unfold Codec.ascii in Hx; lia|discriminate].
Qed.

(** A non-empty ASCII text that occurs in the bytes of the UTF-8 form
    of a string occurs in the string. *)
Lemma contains_octets (x : N) (m' s : str) :
  Forall Codec.ascii (x :: m') -> Forall Codec.scalar s ->
  Py.contains (x :: m') (flat_map Codec.utf8_octets s) = true ->
  Py.contains (x :: m') s = true.
Proof.
  intros Hm. induction 1 as [|c s Hc Hs IH]; [tauto|].
  cbn [flat_map]. destruct (N.ltb_spec c 0x80) as [Lc|Lc].
  - rewrite utf8_octets_ascii by exact Lc.
    change ([c] ++ flat_map Codec.utf8_octets s)
      with (c :: flat_map Codec.utf8_octets s).
    rewrite !contains_cons.
    intros H. apply orb_true_iff in H. apply orb_true_iff.
    destruct H as [H|H]; [left|right; exact (IH H)].
    apply startswith_octets; [exact Hm|constructor; assumption|].
    cbn [flat_map]. rewrite utf8_octets_ascii by exact Lc. exact H.
  - assert (~ Codec.ascii c) as Hna by (unfold Codec.ascii; lia).
    rewrite contains_skip_high;
      [|inversion Hm; assumption|apply utf8_octets_high, Hna].
    intros H. rewrite contains_cons, (IH H). apply orb_true_r.
Qed.

(** An occurrence in [x ++ y] lies in [x], lies in [y], or straddles
    the two. *)
Lemma contains_app_cases (m x y : str) :
  Py.contains m (x ++ y) = true ->
  Py.contains m x = true \/ Py.contains m y = true
  \/ exists m1 m2, m1 <> [] /\ m2 <> [] /\ m = m1 ++ m2
                   /\ (exists x', x = x' ++ m1) /\ (exists y', y = m2 ++ y').
Proof.
  intros H. apply contains_spec in H. destruct H as [pre [post H]].
  apply app_eq_app in H. destruct H as [l [[Hx Hy]|[Hp Hy]]].
  - apply app_eq_app in Hy. destruct Hy as [l' [[Hm Hy]|[Hl Hpost]]].
    + destruct l as [|a l].
      * right. left. apply contains_spec. exists [], post.
        rewrite Hy, Hm. reflexivity.
      * destruct l' as [|a' l'].
        -- left. apply contains_spec. exists pre, [].
           rewrite Hx, Hm, !app_nil_r. reflexivity.
        -- right. right. exists (a :: l), (a' :: l').
           repeat split; try discriminate; try assumption.
           ++ exists pre. exact Hx.
           ++ exists post. exact Hy.
    + left. apply contains_spec. exists pre, l'. rewrite Hx, Hl. reflexivity.
  - right. left. apply contains_spec. exists l, post. exact Hy.
Qed.

(** The occurrence of [m] written after [s] is the first one when none
    starts inside [s]. *)
Lemma split_first_absent (m s t : str) :
  m <> [] -> Py.contains m (s ++ removelast m) = false ->
  Cxx.split_first m (s ++ m ++ t) = Some (s, t).
Proof.
  intros Hm Habs. apply split_first_app. intros pre post E.
  destruct (Nat.le_gt_cases (length s) (length pre)) as [L|L]; [exact L|].
  exfalso. apply app_eq_app in E. destruct E as [l [[Hs Hr]|[Hp _]]].
  - assert (l <> []) as Hl.
    { intros ->. rewrite app_nil_r in Hs. subst s. lia. }
    rewrite (app_removelast_last 0%N Hm) in Hr at 2.
    rewrite <- app_assoc, app_assoc in Hr.
    assert (exists u, l ++ removelast m = m ++ u) as [u Hu].
    { symmetry in Hr. apply app_eq_app in Hr.
      destruct Hr as [u [[H1 _]|[H1 _]]]; [exists u; exact H1|].
      assert (length m = length (l ++ removelast m) + length u) as Hlen
          by (rewrite H1 at 1; rewrite length_app; reflexivity).
      rewrite length_app in Hlen.
      assert (length m = length (removelast m) + 1) as Hrm.
      { rewrite (app_removelast_last 0%N Hm) at 1.
        rewrite length_app. reflexivity. }
      destruct l as [|a l]; [congruence|]. simpl in Hlen.
      destruct u as [|b u]; [|simpl in Hlen; lia].
      exists []. rewrite app_nil_r in *. symmetry. exact H1. }
    assert (Py.contains m (s ++ removelast m) = true) as T.
    { apply contains_spec. exists pre, u.
      rewrite Hs, <- app_assoc, Hu. reflexivity. }
    congruence.
  - rewrite Hp, length_app in L. lia.
Qed.

End Encoding.

(** ** The generated unit *)

Section GeneratedUnit.

Local Abbreviation enc := (flat_map Codec.utf8_octets).

(** The template has only ASCII characters of its own: the bytes of the
    unit are the template around the bytes of its three holes. *)
Lemma render_octets (label delimiter data : str) :
  enc (render label delimiter data)
  = render (enc label) (enc delimiter) (enc data).
Proof.
  unfold render. rewrite !flat_map_app.
  repeat match goal with
         | |- context [enc (lit ?s)] =>
             rewrite (flat_map_ascii (lit s)) by (apply ascii_check; reflexivity)
         end.
  reflexivity.
Qed.


(** The unit, cut at the markers of the literal. *)
Lemma render_markers (label delimiter data : str) :
  render label delimiter data
  = (lit "/* Auto-generated from " ++ label ++ lit ". */")
    ++ Cxx.declaration ++ Cxx.raw_open delimiter
    ++ (LF :: data) ++ Cxx.raw_close delimiter
    ++ (lit ";" ++ [LF])
    ++ (lit "extern const size_t tpch_dists_size = sizeof(tpch_dists_data) - 1;"
          ++ [LF])
    ++ (lit "}  // extern " ++ [DQUOTE] ++ lit "C" ++ [DQUOTE] ++ [LF]).
Proof.
  unfold render, Cxx.declaration, Cxx.raw_open, Cxx.raw_close.
  rewrite <- !app_assoc. reflexivity.
Qed.

Lemma delimiter_char_ascii (d : str) :
  Forall delimiter_char d -> Forall Codec.ascii d.
Proof.
  apply Forall_impl. unfold delimiter_char, Codec.ascii. intros c H. lia.
Qed.

Lemma delimiter_char_scalar (d : str) :
  Forall delimiter_char d -> Forall Codec.scalar d.
Proof.
  apply Forall_impl. unfold delimiter_char, Codec.scalar. intros c H. lia.
Qed.

Lemma delimiter_char_not (c : N) (d : str) :
  Forall delimiter_char d -> ~ delimiter_char c -> ~ In c d.
Proof.
  intros Hd Hc Hin. rewrite Forall_forall in Hd. exact (Hc (Hd c Hin)).
Qed.

(** What [choose_delimiter] returns for the base "TPCH_DISTS" is made
    of capital letters, digits and underscores. *)
Lemma chosen_delimiter_chars (fuel : nat) (data d : str) :
  choose_delimiter fuel data TPCH_DISTS = Return d -> Forall delimiter_char d.
Proof.
  assert (Forall delimiter_char TPCH_DISTS) as Hb.
  { apply Forall_forall. intros c Hc. unfold delimiter_char.
    vm_compute in Hc.
    repeat (destruct Hc as [<-|Hc]; [lia|]). contradiction. }
  unfold choose_delimiter. destruct (negb _).
  - intros H. inversion H; subst. exact Hb.
  - intros H. apply loop_inversion in H. destruct H as [k [_ [-> _]]].
    unfold suffixed. apply Forall_app. split; [exact Hb|].
    constructor; [unfold delimiter_char, USCORE; lia|].
    apply Forall_forall. intros c Hc. apply digits_range in Hc.
    unfold delimiter_char. lia.
Qed.



End GeneratedUnit.

(** ** Reading the unit back *)

Section ReadBack.

Local Abbreviation enc := (flat_map Codec.utf8_octets).

Lemma ascii_scalar (m : str) : Forall Codec.ascii m -> Forall Codec.scalar m.
Proof.
  apply Forall_impl. unfold Codec.ascii, Codec.scalar. intros c H. lia.
Qed.

(** An ASCII text absent from a string is absent from its bytes. *)
Lemma absent_octets (m s : str) :
  m <> [] -> Forall Codec.ascii m -> Forall Codec.scalar s ->
  Py.contains m s = false -> Py.contains m (enc s) = false.
Proof.
  intros Hne Hm Hs H. destruct m as [|x m']; [congruence|].
  destruct (Py.contains (x :: m') (enc s)) eqn:E; [|reflexivity].
  apply contains_octets in E; [congruence|exact Hm|exact Hs].
Qed.

Variables label d data : str.
Hypothesis label_scalar : Forall Codec.scalar label.
Hypothesis data_scalar : Forall Codec.scalar data.
Hypothesis data_ends : exists pre, data = pre ++ [LF].
Hypothesis d_chars : Forall delimiter_char d.
Hypothesis d_safe : Py.contains (closing d) data = false.

(** The closing marker of the literal occurs first where the template
    writes it: not inside the content, whose last character is "\n",
    and not across its end. *)
Lemma closing_marker_absent :
  Py.contains (closing d ++ [DQUOTE]) ((LF :: data) ++ closing d) = false.
Proof.
  assert (~ In LF (closing d ++ [DQUOTE])) as NoLF.
  { unfold closing. simpl. rewrite in_app_iff. simpl.
    intros [E|[I|[E|[]]]]; try discriminate.
    revert I. apply delimiter_char_not; [exact d_chars|].
    unfold delimiter_char, LF. lia. }
  destruct (Py.contains (closing d ++ [DQUOTE]) ((LF :: data) ++ closing d))
    eqn:E; [exfalso|reflexivity].
  apply contains_app_cases in E.
  destruct E as [E|[E|[m1 [m2 [N1 [N2 [Em [[x' Ex] _]]]]]]]].
  - rewrite contains_cons in E. apply orb_true_iff in E.
    destruct E as [E|E]; [unfold Py.startswith in E; simpl in E; discriminate|].
    apply contains_spec in E. destruct E as [pre [post E]].
    assert (Py.contains (closing d) data = true) as T.
    { apply contains_spec. exists pre, ([DQUOTE] ++ post).
      rewrite E, <- !app_assoc. reflexivity. }
    congruence.
  - apply contains_spec in E. destruct E as [pre [post E]].
    apply (f_equal (@length N)) in E. rewrite !length_app in E.
    simpl in E. lia.
  - destruct data_ends as [pre Ep].
    destruct (exists_last N1) as [m1' [c Em1]].
    rewrite Ep, Em1, app_comm_cons, app_assoc in Ex.
    apply app_inj_tail in Ex. destruct Ex as [_ Ec].
    apply NoLF. rewrite Em, Em1, Ec, !in_app_iff. simpl. tauto.
Qed.

(** The literal ends where the template closes it. *)
Lemma literal_ends (t : list N) :
  Cxx.split_first (Cxx.raw_close d)
                  ((LF :: enc data) ++ Cxx.raw_close d ++ t)
  = Some (LF :: enc data, t).
Proof.
  pose proof (delimiter_char_ascii d d_chars) as d_ascii.
  change (Cxx.raw_close d) with (closing d ++ [DQUOTE]).
  apply split_first_absent; [destruct d; discriminate|].
  rewrite removelast_last.
  replace ((LF :: enc data) ++ closing d)
    with (enc ((LF :: data) ++ closing d)).
  - apply absent_octets.
    + destruct d; discriminate.
    + apply Forall_app. split; [|apply ascii_check; reflexivity].
      constructor; [unfold Codec.ascii, RPAREN; lia|exact d_ascii].
    + apply Forall_app. split.
      * constructor; [unfold Codec.scalar, LF; lia|exact data_scalar].
      * constructor; [unfold Codec.scalar, RPAREN; lia|].
        apply delimiter_char_scalar, d_chars.
    + apply closing_marker_absent.
  - unfold closing. rewrite flat_map_app. cbn [flat_map].
    rewrite (utf8_octets_ascii LF) by (unfold Codec.ascii, LF; lia).
    rewrite (utf8_octets_ascii RPAREN) by (unfold Codec.ascii, RPAREN; lia).
    rewrite (flat_map_ascii d d_ascii). reflexivity.
Qed.





End ReadBack.

(** ** The whole run *)

Section Main.

Local Abbreviation enc := (flat_map Codec.utf8_octets).

Lemma render_scalar (label d data : str) :
  Forall Codec.scalar label -> Forall Codec.scalar d ->
  Forall Codec.scalar data -> Forall Codec.scalar (render label d data).
Proof.
  intros Hl Hd Hc. unfold render.
  repeat (apply Forall_app; split);
    try assumption; apply ascii_scalar, ascii_check; reflexivity.
Qed.

Lemma utf8_encode_has_fuel (s : str) : Codec.utf8_encode s <> OutOfFuel.
Proof.
  induction s as [|c s IH]; [discriminate|]. cbn [Codec.utf8_encode].
  unfold Codec.utf8_encode_char.
  repeat match goal with
         | |- context [if ?b then _ else _] => destruct b
         end; simpl; try discriminate;
    destruct (Codec.utf8_encode s); simpl; congruence.
Qed.

(** Every run reads a content, chooses a delimiter with enough fuel,
    and writes the rendered unit. *)
Lemma main_run (a : args) (file : bytes) :
  exists data d,
    read_input file = Return data
    /\ content file = Return (normalize data)
    /\ Forall Codec.scalar (normalize data)
    /\ (exists pre, normalize data = pre ++ [LF])
    /\ Forall delimiter_char d
    /\ Py.contains (closing d) (normalize data) = false
    /\ forall extra,
         main (length (normalize data) + 1 + extra) a file
         = Path.write_text_utf8 (render (label_of a) d (normalize data)).
Proof.
  destruct (content_returns file) as [data [E [Ec Hs]]].
  destruct (choose_delimiter_returns (normalize data) TPCH_DISTS)
    as [d [Hd Habs]].
  exists data, d. split; [exact E|]. split; [exact Ec|].
  split; [exact Hs|]. split; [apply normalize_ends_with_LF|].
  split; [exact (chosen_delimiter_chars _ _ _ (Hd 0))|].
  split; [exact Habs|].
  intros extra. unfold main. rewrite E. cbn [bind]. rewrite Hd. reflexivity.
Qed.

(** With a label that UTF-8 encodes, the run writes the bytes of the
    unit. *)
Lemma main_writes (a : args) (file : bytes) :
  Forall Codec.scalar (label_of a) ->
  exists data d written,
    content file = Return (normalize data)
    /\ Forall Codec.scalar (normalize data)
    /\ (exists pre, normalize data = pre ++ [LF])
    /\ Forall delimiter_char d
    /\ Py.contains (closing d) (normalize data) = false
    /\ (forall extra,
           main (length (normalize data) + 1 + extra) a file = Return written)
    /\ octets written = enc (render (label_of a) d (normalize data)).
Proof.
  intros Hl. destruct (main_run a file)
    as [data [d [_ [Ec [Hs [Hlf [Hd [Habs Hm]]]]]]]].
  destruct (utf8_encode_scalar (render (label_of a) d (normalize data)))
    as [written [Ew Ho]].
  { apply render_scalar; [exact Hl|apply delimiter_char_scalar, Hd|exact Hs]. }
  exists data, d, written. repeat split; try assumption.
  intros extra. rewrite Hm. exact Ew.
Qed.

(** The outcome of a run that has fuel enough depends on the file and
    on the label only. *)
Lemma main_fuel (fuel1 fuel2 : nat) (a1 a2 : args) (file : bytes) :
  label_of a1 = label_of a2 ->
  main fuel1 a1 file <> OutOfFuel -> main fuel2 a2 file <> OutOfFuel ->
  main fuel1 a1 file = main fuel2 a2 file.
Proof.
  intros Hl. unfold main.
  destruct (read_input file) as [data|e|]; cbn [bind]; [|reflexivity|congruence].
  destruct (choose_delimiter fuel1 (normalize data) TPCH_DISTS)
    as [d1|e1|] eqn:E1; cbn [bind];
    [|exfalso; exact (choose_delimiter_never_raises _ _ _ _ E1)|congruence].
  destruct (choose_delimiter fuel2 (normalize data) TPCH_DISTS)
    as [d2|e2|] eqn:E2; cbn [bind];
    [|exfalso; exact (choose_delimiter_never_raises _ _ _ _ E2)|congruence].
  intros _ _. rewrite Hl, (choose_delimiter_fuel _ _ _ _ _ _ E1 E2).
  reflexivity.
Qed.


(** A run has fuel enough with [len(data) + 1] iterations: it returns or
    raises. *)
Lemma main_has_fuel (a : args) (file : bytes) :
  exists fuel0, forall extra, main (fuel0 + extra) a file <> OutOfFuel.
Proof.
  destruct (main_run a file) as [data [d [_ [_ [_ [_ [_ [_ Hm]]]]]]]].
  exists (length (normalize data) + 1). intros extra. rewrite Hm.
  apply utf8_encode_has_fuel.
Qed.

End Main.

Section CodecRoundTrip.

Ltac decide_if :=
  match goal with
  | |- context [if (?x <? ?y)%N then _ else _] =>
      destruct (N.ltb_spec x y); [try lia|try lia]
  | |- context [if (?x =? ?y)%N then _ else _] =>
      destruct (N.eqb_spec x y); [try lia|try lia]
  | |- context [Codec.between ?l ?x ?h] =>
      first
        [ rewrite (proj2 (between_spec l x h)) by lia
        | let B := fresh "B" in
          assert (Codec.between l x h = false) as B
              by (apply not_true_is_false; rewrite between_spec; lia);
          rewrite B ];
      cbn [andb]
  end.

Lemma decode_1 (x0 : N) (r : bytes) :
  (x0 < 0x80)%N ->
  Codec.utf8_decode (Codec.byte_of x0 :: r)
  = (s <- Codec.utf8_decode r ;; Return (x0 :: s)).
Proof.
  intros H0. cbn [Codec.utf8_decode]. rewrite to_N_byte_of by lia.
  cbv zeta. repeat decide_if. reflexivity.
Qed.

Lemma decode_2 (x0 x1 : N) (r : bytes) :
  (0xC2 <= x0 <= 0xDF)%N -> (0x80 <= x1 <= 0xBF)%N ->
  Codec.utf8_decode (Codec.byte_of x0 :: Codec.byte_of x1 :: r)
  = (s <- Codec.utf8_decode r ;;
     Return (((x0 - 0xC0) * 0x40 + (x1 - 0x80))%N :: s)).
Proof.
  intros H0 H1. cbn [Codec.utf8_decode]. rewrite !to_N_byte_of by lia.
  cbv zeta. repeat decide_if. reflexivity.
Qed.

Lemma decode_3 (x0 x1 x2 : N) (r : bytes) :
  (0xE0 <= x0 <= 0xEF)%N -> (0x80 <= x1 <= 0xBF)%N ->
  (0x80 <= x2 <= 0xBF)%N ->
  (x0 = 0xE0 -> 0xA0 <= x1)%N -> (x0 = 0xED -> x1 <= 0x9F)%N ->
  Codec.utf8_decode
    (Codec.byte_of x0 :: Codec.byte_of x1 :: Codec.byte_of x2 :: r)
  = (s <- Codec.utf8_decode r ;;
     Return (((x0 - 0xE0) * 0x1000 + (x1 - 0x80) * 0x40
              + (x2 - 0x80))%N :: s)).
Proof.
  intros H0 H1 H2 Hlo Hhi. cbn [Codec.utf8_decode].
  rewrite !to_N_byte_of by lia.
  cbv zeta. repeat decide_if; reflexivity.
Qed.

Lemma decode_4 (x0 x1 x2 x3 : N) (r : bytes) :
  (0xF0 <= x0 <= 0xF4)%N -> (0x80 <= x1 <= 0xBF)%N ->
  (0x80 <= x2 <= 0xBF)%N -> (0x80 <= x3 <= 0xBF)%N ->
  (x0 = 0xF0 -> 0x90 <= x1)%N -> (x0 = 0xF4 -> x1 <= 0x8F)%N ->
  Codec.utf8_decode
    (Codec.byte_of x0 :: Codec.byte_of x1 :: Codec.byte_of x2
       :: Codec.byte_of x3 :: r)
  = (s <- Codec.utf8_decode r ;;
     Return (((x0 - 0xF0) * 0x40000 + (x1 - 0x80) * 0x1000
              + (x2 - 0x80) * 0x40 + (x3 - 0x80))%N :: s)).
Proof.
  intros H0 H1 H2 H3 Hlo Hhi. cbn [Codec.utf8_decode].
  rewrite !to_N_byte_of by lia.
  cbv zeta. repeat decide_if; reflexivity.
Qed.

Ltac rebuilt c :=
  match goal with
  | |- bind _ (fun s => Return (?v :: s)) = _ =>
      replace v with c by lia_div; reflexivity
  end.

(** Decoding the UTF-8 form of a character gives the character. *)
Lemma utf8_decode_char (c : N) (b r : bytes) :
  Codec.utf8_encode_char c = Return b ->
  Codec.utf8_decode (b ++ r)
  = (s <- Codec.utf8_decode r ;; Return (c :: s)).
Proof.
  unfold Codec.utf8_encode_char.
  destruct (N.ltb_spec c 0x80) as [L0|L0].
  { intros H.
    assert (b = [Codec.byte_of c]) as -> by congruence.
    apply decode_1, L0. }
  destruct (N.ltb_spec c 0x800) as [L1|L1].
  { intros H.
    assert (b = [Codec.byte_of (0xC0 + c / 0x40);
                 Codec.byte_of (0x80 + c mod 0x40)]) as -> by congruence.
    cbn [List.app]. rewrite decode_2 by lia_div. rebuilt c. }
  destruct (N.ltb_spec c 0x10000) as [L2|L2].
  { destruct (Codec.between 0xD800 c 0xDFFF) eqn:B; [discriminate|].
    assert (~ (0xD800 <= c <= 0xDFFF)%N) as NB
        by (rewrite <- between_spec; congruence).
    intros H.
    assert (b = [Codec.byte_of (0xE0 + c / 0x1000);
                 Codec.byte_of (0x80 + (c / 0x40) mod 0x40);
                 Codec.byte_of (0x80 + c mod 0x40)]) as -> by congruence.
    cbn [List.app]. rewrite decode_3 by lia_div. rebuilt c. }
  destruct (N.ltb_spec c 0x110000) as [L3|L3]; [|discriminate].
  intros H.
  assert (b = [Codec.byte_of (0xF0 + c / 0x40000);
               Codec.byte_of (0x80 + (c / 0x1000) mod 0x40);
               Codec.byte_of (0x80 + (c / 0x40) mod 0x40);
               Codec.byte_of (0x80 + c mod 0x40)]) as -> by congruence.
  cbn [List.app]. rewrite decode_4 by lia_div. rebuilt c.
Qed.

(** Decoding what the encoder returns gives the string back. *)
Lemma utf8_decode_encode (s : str) (b : bytes) :
  Codec.utf8_encode s = Return b -> Codec.utf8_decode b = Return s.
Proof.
  revert b. induction s as [|c s IH]; intros b; cbn [Codec.utf8_encode].
  - intros [= <-]. reflexivity.
  - destruct (Codec.utf8_encode_char c) as [bc| |] eqn:Ec;
      cbn [bind]; try discriminate.
    destruct (Codec.utf8_encode s) as [r| |]; cbn [bind]; try discriminate.
    intros [= <-]. rewrite (utf8_decode_char c bc r Ec), (IH r eq_refl).
    reflexivity.
Qed.

End CodecRoundTrip.

(** ** A content that uses up the short delimiters *)

Section LongDelimiter.





















End LongDelimiter.

(** ** The claims on the generated unit *)




(** Scenarios A and C: the Content and the delimiter. *)
Example content_scenarios :
  content hello_crlf = Return (lit "hello" ++ [LF] ++ lit "world" ++ [LF])
  /\ choose_delimiter 0 (lit "hello" ++ [LF] ++ lit "world" ++ [LF]) TPCH_DISTS
     = Return TPCH_DISTS
  /\ content [] = Return [LF]
  /\ choose_delimiter 0 [LF] TPCH_DISTS = Return TPCH_DISTS.
Proof. repeat split. Qed.




(** C6: for every input, the bytes of the generated file between the
    opening marker R"DELIM( and the closing marker )DELIM" (the first one
    after the opening marker) are the "\n" that the template writes after
    the opening marker followed by the bytes of the normalized Content;
    without that "\n" they decode to the Content. The label is one that
    UTF-8 encodes. *)
Theorem literal_span_is_content (a : args) (file : bytes) :
  Forall Codec.scalar (label_of a) ->
  exists fuel written d c cb lb after,
    main fuel a file = Return written
    /\ content file = Return c
    /\ Codec.utf8_encode (label_of a) = Return lb
    /\ Codec.utf8_encode c = Return cb
    /\ Codec.utf8_decode cb = Return c
    /\ octets written
       = (lit "/* Auto-generated from " ++ octets lb ++ lit ". */")
         ++ Cxx.declaration ++ Cxx.raw_open d
         ++ (LF :: octets cb) ++ Cxx.raw_close d ++ after
    /\ Cxx.split_first (Cxx.raw_close d)
                       ((LF :: octets cb) ++ Cxx.raw_close d ++ after)
       = Some (LF :: octets cb, after).
Proof.
  intros Hl.
  destruct (main_writes a file Hl)
    as [data [d [written [Ec [Hs [Hlf [Hd [Habs [Hm Ho]]]]]]]]].
  destruct (utf8_encode_scalar (normalize data) Hs) as [cb [Ecb Hcb]].
  destruct (utf8_encode_scalar (label_of a) Hl) as [lb [Elb Hlb]].
  exists (length (normalize data) + 1 + 0), written, d, (normalize data), cb, lb.
  eexists.
  split; [apply Hm|]. split; [exact Ec|]. split; [exact Elb|].
  split; [exact Ecb|]. split; [exact (utf8_decode_encode _ _ Ecb)|].
  rewrite Ho, render_octets, (flat_map_ascii d (delimiter_char_ascii d Hd)).
  rewrite render_markers, Hcb, Hlb. split; [reflexivity|].
  apply literal_ends; assumption.
Qed.

Lemma literal_span_is_content_witness :
  exists fuel written d c cb lb after,
    main fuel args_label hello_crlf = Return written
    /\ content hello_crlf = Return c
    /\ Codec.utf8_encode (label_of args_label) = Return lb
    /\ Codec.utf8_encode c = Return cb
    /\ Codec.utf8_decode cb = Return c
    /\ octets written
       = (lit "/* Auto-generated from " ++ octets lb ++ lit ". */")
         ++ Cxx.declaration ++ Cxx.raw_open d
         ++ (LF :: octets cb) ++ Cxx.raw_close d ++ after
    /\ Cxx.split_first (Cxx.raw_close d)
                       ((LF :: octets cb) ++ Cxx.raw_close d ++ after)
       = Some (LF :: octets cb, after).
Proof.
  apply (literal_span_is_content args_label hello_crlf).
  apply ascii_scalar, ascii_check. reflexivity.
Defined.

(** C8, as the claim states it, fails: without [--label], two runs on
    files of the same bytes and with the same output path write different
    units when the input paths differ. *)
Lemma main_names_input_path :
  exists w1 w2,
    main 1 args_default hello_crlf = Return w1
    /\ main 1 args_copy hello_crlf = Return w2
    /\ label args_default = label args_copy
    /\ output args_default = output args_copy
    /\ w1 <> w2.
Proof.
  eexists. eexists. split; [vm_compute; reflexivity|].
  split; [vm_compute; reflexivity|]. split; [reflexivity|].
  split; [reflexivity|]. discriminate.
Qed.

(** C8, amended: two runs on the same input bytes and with the same
    effective label (the [--label] argument when it is given and not
    empty, the input path otherwise) have the same outcome, and so write
    the same bytes; the output path plays no part. Both runs end: with
    fuel enough they have that outcome, and with less they have it or are
    out of fuel. *)
Theorem main_deterministic (a1 a2 : args) (file : bytes) :
  label_of a1 = label_of a2 ->
  exists out fuel0,
    out <> OutOfFuel
    /\ (forall extra,
           main (fuel0 + extra) a1 file = out
           /\ main (fuel0 + extra) a2 file = out)
    /\ (forall fuel,
           (main fuel a1 file = out \/ main fuel a1 file = OutOfFuel)
           /\ (main fuel a2 file = out \/ main fuel a2 file = OutOfFuel)).
Proof.
  intros Hl.
  destruct (main_has_fuel a1 file) as [f1 H1].
  destruct (main_has_fuel a2 file) as [f2 H2].
  exists (main (f1 + 0) a1 file), (f1 + f2).
  split; [apply H1|]. split.
  - intros extra. split.
    + replace (f1 + f2 + extra) with (f1 + (f2 + extra)) by lia.
      apply main_fuel; [reflexivity|apply H1|apply H1].
    + replace (f1 + f2 + extra) with (f2 + (f1 + extra)) by lia.
      apply main_fuel; [symmetry; exact Hl|apply H2|apply H1].
  - intros fuel. split.
    + destruct (main fuel a1 file) as [w|e|] eqn:E; [left|left|right; reflexivity];
        rewrite <- E; apply main_fuel;
        solve [reflexivity|apply H1|rewrite E; discriminate].
    + destruct (main fuel a2 file) as [w|e|] eqn:E; [left|left|right; reflexivity];
        rewrite <- E; apply main_fuel;
        solve [symmetry; exact Hl|apply H1|rewrite E; discriminate].
Qed.

Lemma main_deterministic_witness :
  exists out fuel0,
    out <> OutOfFuel
    /\ (forall extra,
           main (fuel0 + extra) args_label hello_crlf = out
           /\ main (fuel0 + extra) args_relabel hello_crlf = out)
    /\ (forall fuel,
           (main fuel args_label hello_crlf = out
            \/ main fuel args_label hello_crlf = OutOfFuel)
           /\ (main fuel args_relabel hello_crlf = out
               \/ main fuel args_relabel hello_crlf = OutOfFuel)).
Proof.
  apply (main_deterministic args_label args_relabel hello_crlf).
  reflexivity.
Defined.

(** * Further properties of the script *)

(** ** What a run raises and what it writes *)

Section Outcomes.

Local Abbreviation enc := (flat_map Codec.utf8_octets).

Lemma scalar_dec (c : N) : {Codec.scalar c} + {~ Codec.scalar c}.
Proof.
  unfold Codec.scalar.
  destruct (c <? 0xD800)%N eqn:L; [apply N.ltb_lt in L; left; lia|].
  apply N.ltb_ge in L.
  destruct (0xDFFF <? c)%N eqn:M; [apply N.ltb_lt in M|apply N.ltb_ge in M; right; lia].
  destruct (c <? 0x110000)%N eqn:H; [apply N.ltb_lt in H; left; lia|].
  apply N.ltb_ge in H. right. lia.
Qed.

(** What the encoder returns is the bytes of characters that all have a
    UTF-8 form. *)
Lemma utf8_encode_inv (s : str) (b : bytes) :
  Codec.utf8_encode s = Return b ->
  Forall Codec.scalar s /\ octets b = enc s.
Proof.
  intros E. destruct (Forall_dec Codec.scalar scalar_dec s) as [H|H].
  - split; [exact H|]. destruct (utf8_encode_scalar s H) as [b' [E' Ho]].
    congruence.
  - rewrite (utf8_encode_raises s H) in E. discriminate.
Qed.

(** An ASCII byte of the UTF-8 form of a string is a character of the
    string. *)
Lemma in_octets (c : N) (s : str) :
  Codec.ascii c -> In c (enc s) -> In c s.
Proof.
  intros Hc. induction s as [|x s IH]; [tauto|]. cbn [flat_map].
  rewrite in_app_iff. intros [H|H]; [|right; exact (IH H)].
  destruct (N.ltb_spec x 0x80) as [Lx|Lx].
  - rewrite (utf8_octets_ascii x Lx) in H. destruct H as [<-|[]].
    left. reflexivity.
  - assert (~ Codec.ascii x) as Hx by (unfold Codec.ascii; lia).
    pose proof (utf8_octets_high x Hx) as Hh. rewrite Forall_forall in Hh.
    apply Hh in H. unfold Codec.ascii in Hc. lia.
Qed.

Lemma render_label_scalar (label d data : str) :
  Forall Codec.scalar (render label d data) -> Forall Codec.scalar label.
Proof.
  unfold render. intros H.
  apply Forall_app in H. destruct H as [H _].
  apply Forall_app in H. destruct H as [_ H].
  apply Forall_app in H. destruct H as [H _]. exact H.
Qed.

(** A run that returns has read a content, chosen a delimiter for it and
    encoded the rendered unit. *)
Lemma main_inversion (fuel : nat) (a : args) (file written : bytes) :
  main fuel a file = Return written ->
  exists data d,
    read_input file = Return data
    /\ choose_delimiter fuel (normalize data) TPCH_DISTS = Return d
    /\ Codec.utf8_encode (render (label_of a) d (normalize data))
       = Return written.
Proof.
  unfold main. destruct (read_input file) as [data| |]; cbn [bind];
    try discriminate.
  destruct (choose_delimiter fuel (normalize data) TPCH_DISTS)
    as [d| |] eqn:Ed; cbn [bind]; try discriminate.
  intros H. exists data, d. split; [reflexivity|]. split; [exact Ed|exact H].
Qed.

End Outcomes.

(** X1: a run never raises [UnicodeDecodeError] and never loops for
    ever. With [len(data) + 1] iterations or more, it writes the output
    when every character of the effective label has a UTF-8 form, and it
    raises [UnicodeEncodeError], from [write_text], when one has none (a
    lone surrogate). *)
Theorem main_outcomes (a : args) (file : bytes) :
  exists fuel0, forall extra,
    (Forall Codec.scalar (label_of a)
     /\ exists written, main (fuel0 + extra) a file = Return written)
    \/ (~ Forall Codec.scalar (label_of a)
        /\ main (fuel0 + extra) a file = Raise UnicodeEncodeError).
Proof.
  destruct (main_run a file) as [data [d [_ [_ [Hs [_ [Hd [_ Hm]]]]]]]].
  exists (length (normalize data) + 1). intros extra. rewrite Hm.
  unfold Path.write_text_utf8.
  destruct (Forall_dec Codec.scalar scalar_dec (label_of a)) as [H|H].
  - left. split; [exact H|].
    destruct (utf8_encode_scalar (render (label_of a) d (normalize data)))
      as [written [E _]].
    { apply render_scalar; [exact H|apply delimiter_char_scalar, Hd|exact Hs]. }
    exists written. exact E.
  - right. split; [exact H|]. apply utf8_encode_raises.
    intros Hr. apply H. exact (render_label_scalar _ _ _ Hr).
Qed.

(** X2: the written file has no carriage return when the effective label
    has none: the content is normalized, the template and the delimiter
    have none, and "\n" is written as it is. *)
Theorem written_has_no_CR (fuel : nat) (a : args) (file written : bytes) :
  ~ In CR (label_of a) ->
  main fuel a file = Return written ->
  ~ In x0d written.
Proof.
  intros Hl Hm Hin.
  destruct (main_inversion fuel a file written Hm) as [data [d [_ [Hd Hw]]]].
  apply utf8_encode_inv in Hw. destruct Hw as [_ Ho].
  assert (In CR (octets written)) as Hc
      by (apply (in_map Byte.to_N) in Hin; exact Hin).
  rewrite Ho in Hc. apply in_octets in Hc; [|unfold Codec.ascii, CR; lia].
  unfold render in Hc. rewrite !in_app_iff in Hc.
  assert (~ In CR d) as Hnd.
  { apply delimiter_char_not; [exact (chosen_delimiter_chars _ _ _ Hd)|].
    unfold delimiter_char, CR. lia. }
  pose proof (normalize_no_CR data) as Hnc.
  repeat match goal with
         | H : _ \/ _ |- _ => destruct H as [H|H]
         end;
    try contradiction;
    try (vm_compute in Hc; repeat (destruct Hc as [Hc|Hc]; [discriminate|]);
         contradiction).
Qed.

Lemma written_has_no_CR_witness :
  exists written,
    main 1 args_label hello_crlf = Return written /\ ~ In x0d written.
Proof.
  eexists. split; [vm_compute; reflexivity|].
  apply (written_has_no_CR 1 args_label hello_crlf).
  - vm_compute. intros H. repeat (destruct H as [H|H]; [discriminate|]).
    contradiction.
  - vm_compute. reflexivity.
Defined.

(** ** What the normalization keeps *)

Section LineEnds.

(** The characters that are no line end. *)
Local Abbreviation text_char :=
  (fun c : N => negb ((c =? CR)%N || (c =? LF)%N)).

(** A replacement of line ends by line ends keeps the other characters,
    in their order. *)
Lemma replace_filter (o : N) (old' new s : str) :
  filter text_char (o :: old') = [] -> filter text_char new = [] ->
  filter text_char (Py.replace (o :: old') new s) = filter text_char s.
Proof.
  intros Hold Hnew. remember (length s) as n eqn:En. revert s En.
  induction n as [n IH] using lt_wf_ind. intros s En.
  destruct s as [|c s]; [rewrite Py.replace_equation_2; reflexivity|].
  rewrite replace_cons.
  destruct (Py.strip_prefix (o :: old') (c :: s)) as [rest|] eqn:E.
  - apply strip_prefix_spec in E. rewrite E.
    rewrite !filter_app, Hnew, Hold. cbn [List.app].
    apply (IH (length rest)); [|reflexivity].
    subst n. rewrite E, length_app. simpl. lia.
  - cbn [filter]. rewrite (IH (length s)); [reflexivity|subst n; simpl; lia|reflexivity].
Qed.

(** The conversion of the line ends, done twice, is done once. *)
Lemma normalize_universal (s : str) :
  normalize (Path.universal_newlines s) = normalize s.
Proof.
  unfold normalize, Path.universal_newlines.
  assert (~ In CR (Py.replace [CR] [LF] (Py.replace [CR; LF] [LF] s))) as H.
  { apply replace_char_gone. simpl. unfold CR, LF. intros [E|[]]. discriminate. }
  rewrite (replace_absent CR [LF] [LF] _)
    by (apply (contains_needs CR); [left; reflexivity|exact H]).
  rewrite (replace_absent CR [] [LF] _)
    by (apply (contains_needs CR); [left; reflexivity|exact H]).
  reflexivity.
Qed.

(** The Content is the normalization of the decoded text, on both
    decoding paths. *)
Lemma content_decoded (file : bytes) :
  exists s,
    (Codec.utf8_decode file = Return s
     \/ (Codec.utf8_decode file = Raise UnicodeDecodeError
         /\ s = map Byte.to_N file))
    /\ content file = Return (normalize s).
Proof.
  unfold content.
  destruct (read_input_cases file) as [[s [E ->]] | [E ->]]; cbn [bind].
  - exists s. split; [left; exact E|]. rewrite normalize_universal. reflexivity.
  - exists (map Byte.to_N file). split; [right; split; [exact E|reflexivity]|].
    reflexivity.
Qed.

End LineEnds.

(** X3: both decoding paths end in the same Content: it is the
    normalization of the decoded text, UTF-8 when the file is UTF-8 and
    Latin-1 otherwise, whether [read_text] has already converted the line
    ends (the UTF-8 path) or not (the Latin-1 path). *)
Theorem content_of_decoded_text (file : bytes) :
  exists s,
    (Codec.utf8_decode file = Return s
     \/ (Codec.utf8_decode file = Raise UnicodeDecodeError
         /\ s = map Byte.to_N file))
    /\ content file = Return (normalize s).
Proof. exact (content_decoded file). Qed.

(** X4: the normalization of lines 59-61 touches line ends only: the
    characters of the Content other than "\r" and "\n" are those of the
    text, in the same order. *)
Theorem normalize_keeps_text (data : str) :
  filter (fun c => negb ((c =? CR)%N || (c =? LF)%N)) (normalize data)
  = filter (fun c => negb ((c =? CR)%N || (c =? LF)%N)) data.
Proof.
  assert (filter (fun c => negb ((c =? CR)%N || (c =? LF)%N))
                 (Py.replace [CR] [LF] (Py.replace [CR; LF] [LF] data))
          = filter (fun c => negb ((c =? CR)%N || (c =? LF)%N)) data) as H.
  { rewrite !replace_filter; reflexivity. }
  destruct (normalize_cases data) as [[_ ->]|[_ ->]]; [exact H|].
  rewrite filter_app, H. cbn. apply app_nil_r.
Qed.

(** X7: the Content is a fixed point of the tool: a file that holds the
    UTF-8 bytes of a Content has that Content. *)
Theorem content_of_content (file written_content : bytes) (c : str) :
  content file = Return c ->
  Codec.utf8_encode c = Return written_content ->
  content written_content = Return c.
Proof.
  intros Hc He. apply utf8_decode_encode in He.
  unfold content in Hc.
  destruct (read_input file) as [data| |]; cbn [bind] in Hc; try discriminate.
  assert (c = normalize data) as -> by congruence.
  unfold content, read_input, Path.read_text_utf8. rewrite He. cbn.
  rewrite normalize_universal. f_equal.
  apply normalize_fixpoint;
    [apply normalize_no_CR|apply normalize_ends_with_LF].
Qed.

Lemma content_of_content_witness :
  content [x68; x65; x6c; x6c; x6f; x0a; x77; x6f; x72; x6c; x64; x0a]
  = Return (lit "hello" ++ [LF] ++ lit "world" ++ [LF]).
Proof.
  apply (content_of_content hello_crlf); reflexivity.
Defined.

(** ** Files that are embedded as they are, and files that are not *)

Section Verbatim.

Local Abbreviation enc := (flat_map Codec.utf8_octets).
















End Verbatim.





(** ** The shape and the length of the delimiter *)


(** X8: whatever the base, the delimiter that [choose_delimiter] returns
    starts with the base and has no character other than those of the
    base, the underscore and the decimal digits. *)
Theorem chosen_delimiter_alphabet (fuel : nat) (data base d : str) :
  choose_delimiter fuel data base = Return d ->
  (exists suffix, d = base ++ suffix)
  /\ Forall (fun c => In c base \/ c = USCORE \/ (48 <= c <= 57)%N) d.
Proof.
  unfold choose_delimiter. destruct (negb _).
  - intros [= <-]. split; [exists []; symmetry; apply app_nil_r|].
    apply Forall_forall. intros c Hc. left. exact Hc.
  - intros H. apply loop_inversion in H. destruct H as [k [_ [-> _]]].
    unfold suffixed. split; [eexists; reflexivity|].
    apply Forall_app. split.
    + apply Forall_forall. intros c Hc. left. exact Hc.
    + constructor; [right; left; reflexivity|].
      apply Forall_forall. intros c Hc. right. right.
      exact (digits_range _ _ Hc).
Qed.

Lemma chosen_delimiter_alphabet_witness :
  (exists suffix, lit "TPCH_DISTS_2" = TPCH_DISTS ++ suffix)
  /\ Forall (fun c => In c TPCH_DISTS \/ c = USCORE \/ (48 <= c <= 57)%N)
            (lit "TPCH_DISTS_2").
Proof.
  apply (chosen_delimiter_alphabet
           2 (lit ")TPCH_DISTS_1)TPCH_DISTS") TPCH_DISTS (lit "TPCH_DISTS_2")).
  reflexivity.
Defined.

(** X9: the delimiter stays short: for a content of fewer than
    [10 ^ m - 1] characters the loop stops at an index below [10 ^ m], so
    the delimiter has at most [m + 1] characters more than the base. With
    the base "TPCH_DISTS" and a content of fewer than 99999 characters
    that is at most 16 characters. *)
Theorem chosen_delimiter_length (m : nat) (data base : str) :
  1 <= m ->
  length data + 1 < 10 ^ m ->
  exists d,
    (forall extra,
        choose_delimiter (length data + 1 + extra) data base = Return d)
    /\ length d <= length base + 1 + m.
Proof.
  intros Hm Hlen.
  destruct (choose_delimiter_returns data base) as [d [Hd _]].
  exists d. split; [exact Hd|].
  specialize (Hd 0). unfold choose_delimiter in Hd.
  destruct (negb _).
  - injection Hd as <-. lia.
  - destruct (loop_terminates data base 0) as [k [Hk E]].
    assert (d = suffixed base k) as -> by congruence.
    unfold suffixed. rewrite length_app. cbn [length].
    pose proof (str_of_int_length m k Hm ltac:(lia)). lia.
Qed.

Lemma chosen_delimiter_length_witness :
  exists d,
    (forall extra,
        choose_delimiter (length (lit "a)TPCH_DISTS b") + 1 + extra)
                         (lit "a)TPCH_DISTS b") TPCH_DISTS = Return d)
    /\ length d <= length TPCH_DISTS + 1 + 2.
Proof.
  apply (chosen_delimiter_length 2 (lit "a)TPCH_DISTS b") TPCH_DISTS).
  - lia.
  - vm_compute. lia.
Defined.
